(** * Deadball roster generator: stat-to-roster mapping and roster assembly

    A shallow embedding of [src/components/DeadballRosterGenerator.js]
    (the rating converters, the trait inferencer, the player normaliser and
    [generateRoster]) together with the properties of its specification.

    Conventions of the embedding:
    - a JavaScript Number is an IEEE binary64 value; [JS.num] represents the
      finite ones exactly, as integer multiples of 2^-1074, and every
      arithmetic operation rounds to nearest-even as the hardware does;
      the sign of zero is not represented (no operation of the program
      observes it);
    - a JavaScript string is a [string] of 8-bit code units;
    - a raw CSV row (a PapaParse object) is a [gmap string string]: a column
      that is missing from the row reads as [None] ([undefined]);
    - an object that is compared by reference carries the index of its
      allocation, see [obj]. *)

From stdpp Require Import gmap strings list fin_maps sorting pretty.
From Stdlib Require Import ZArith Lia Ascii.

Local Open Scope Z_scope.

(** ** JavaScript numbers *)

Module JS.

(** [Fin n] is the number [n * 2^-1074]: every finite binary64 value is such
    a multiple, and [Fin] is injective on them. *)
Inductive num : Set :=
  | NaN
  | PInf
  | NInf
  | Fin (n : Z).

#[global] Instance num_eq_dec : EqDecision num.
Proof. solve_decision. Defined.

(** The number 1 in units of 2^-1074, and 2^1024 (the overflow threshold). *)
Definition one : Z := 2 ^ 1074.
Definition huge : Z := 2 ^ 2098.

(** Quotient [n / d] rounded to the nearest integer, ties to even
    ([0 <= n], [0 < d]). *)
Definition rhe (n d : Z) : Z :=
  let q := n / d in
  let r := n mod d in
  match 2 * r ?= d with
  | Lt => q
  | Gt => q + 1
  | Eq => if Z.even q then q else q + 1
  end.

(** The binary64 value nearest to [n / d] units ([0 <= n], [0 < d]): below
    2^53 units the spacing of binary64 is one unit, above it the significand
    keeps 53 bits. *)
Definition rnd_pos (n d : Z) : num :=
  let k := Z.max 0 (Z.log2 (n / d) - 52) in
  let m := rhe n (d * 2 ^ k) * 2 ^ k in
  if huge <=? m then PInf else Fin m.

Definition neg (x : num) : num :=
  match x with
  | NaN => NaN
  | PInf => NInf
  | NInf => PInf
  | Fin n => Fin (- n)
  end.

Definition rnd (n d : Z) : num :=
  if n <? 0 then neg (rnd_pos (- n) d) else rnd_pos n d.

(** The Number value of the integer [z]. *)
Definition of_Z (z : Z) : num := rnd (z * one) 1.

(** The Number value of the decimal [m * 10^e], as a numeric literal or a
    parsed string denotes it. *)
Definition dec (m e : Z) : num :=
  if 0 <=? e then rnd (m * 10 ^ e * one) 1 else rnd (m * one) (10 ^ (- e)).

Definition isNaN (x : num) : bool :=
  match x with NaN => true | _ => false end.

(** [x < y]; false as soon as one side is NaN. *)
Definition lt (x y : num) : bool :=
  match x, y with
  | NaN, _ | _, NaN => false
  | _, NInf => false
  | NInf, _ => true
  | PInf, _ => false
  | _, PInf => true
  | Fin a, Fin b => a <? b
  end.

Definition gt (x y : num) : bool := lt y x.

(** [x <= y] and [x === y] on numbers; false as soon as one side is NaN. *)
Definition le (x y : num) : bool :=
  match x, y with
  | NaN, _ | _, NaN => false
  | NInf, _ => true
  | _, PInf => true
  | _, NInf => false
  | PInf, _ => false
  | Fin a, Fin b => a <=? b
  end.

Definition ge (x y : num) : bool := le y x.

Definition eqb (x y : num) : bool :=
  match x, y with
  | NaN, _ | _, NaN => false
  | PInf, PInf | NInf, NInf => true
  | Fin a, Fin b => a =? b
  | _, _ => false
  end.

Definition sgn (n : Z) (pos : num) : num :=
  if n <? 0 then neg pos else pos.

Definition add (x y : num) : num :=
  match x, y with
  | NaN, _ | _, NaN => NaN
  | PInf, NInf | NInf, PInf => NaN
  | PInf, _ | _, PInf => PInf
  | NInf, _ | _, NInf => NInf
  | Fin a, Fin b => rnd (a + b) 1
  end.

Definition sub (x y : num) : num := add x (neg y).

Definition mul (x y : num) : num :=
  match x, y with
  | NaN, _ | _, NaN => NaN
  | Fin a, Fin b => rnd (a * b) one
  | Fin 0, _ | _, Fin 0 => NaN
  | Fin a, inf | inf, Fin a => sgn a inf
  | PInf, PInf | NInf, NInf => PInf
  | PInf, NInf | NInf, PInf => NInf
  end.

Definition div (x y : num) : num :=
  match x, y with
  | NaN, _ | _, NaN => NaN
  | Fin 0, Fin 0 => NaN
  | Fin a, Fin 0 => sgn a PInf
  | Fin a, Fin b => if b <? 0 then rnd (- a * one) (- b) else rnd (a * one) b
  | Fin _, _ => Fin 0
  | inf, Fin b => sgn b inf
  | _, _ => NaN
  end.

(** [x || 0]: NaN and 0 are the falsy numbers. *)
Definition or0 (x : num) : num :=
  match x with NaN => Fin 0 | _ => x end.

(** [Math.floor] and [Math.round] (halves go up). *)
Definition floor (x : num) : num :=
  match x with Fin n => Fin (n / one * one) | _ => x end.

Definition round (x : num) : num :=
  match x with Fin n => Fin ((2 * n + one) / (2 * one) * one) | _ => x end.

End JS.

(** ** JavaScript strings and the global parsing functions *)

(** [parseInt] and [parseFloat] give the binary64 value nearest to the exact
    value of the digits they read, as engines do; the standard also lets an
    engine drop the digits after the twentieth significant one, which is not
    modelled. *)

Module Str.

Import JS.

(** [s.includes(t)] *)
Fixpoint includes (s t : string) : bool :=
  String.prefix t s ||
  match s with
  | EmptyString => false
  | String _ s' => includes s' t
  end.

(** [s.endsWith(t)] *)
Definition endsWith (s t : string) : bool :=
  String.prefix (String.rev t) (String.rev s).

(** [s.replace(/[*#]$/, '')]: the pattern is anchored at the end of the
    string, so at most the last code unit goes. *)
Fixpoint replace_trailing_mark (s : string) : string :=
  match s with
  | EmptyString => EmptyString
  | String c EmptyString =>
      if bool_decide (c = "*"%char) || bool_decide (c = "#"%char)
      then EmptyString else s
  | String c s' => String c (replace_trailing_mark s')
  end.

(** [traits.join(sep)] *)
Fixpoint join (sep : string) (l : list string) : string :=
  match l with
  | [] => EmptyString
  | [x] => x
  | x :: l' => x +:+ sep +:+ join sep l'
  end.

(** The truthiness of a field of a row: [undefined] and the empty string are
    falsy, every other string is truthy. *)
Definition truthy (v : option string) : bool :=
  match v with
  | Some (String _ _) => true
  | _ => false
  end.

(** White space and line terminators among the 8-bit code units. *)
Definition is_ws (c : ascii) : bool :=
  Ascii.is_space c || bool_decide (c = "160"%char).

Fixpoint trimStart (s : string) : string :=
  match s with
  | String c s' => if is_ws c then trimStart s' else s
  | EmptyString => EmptyString
  end.

(** The value of a digit in a radix up to 36, if it is one. *)
Definition digit_val (radix : Z) (c : ascii) : option Z :=
  let n := Z.of_nat (nat_of_ascii c) in
  let v := if (48 <=? n) && (n <=? 57) then n - 48
           else if (97 <=? n) && (n <=? 122) then n - 87
           else if (65 <=? n) && (n <=? 90) then n - 55
           else 36 in
  if v <? radix then Some v else None.

(** The longest run of digits at the head of [s]: its value on top of [acc],
    its length on top of [cnt], and what follows it. *)
Fixpoint digits (radix : Z) (s : string) (acc cnt : Z) : Z * Z * string :=
  match s with
  | String c s' =>
      match digit_val radix c with
      | Some d => digits radix s' (radix * acc + d) (cnt + 1)
      | None => (acc, cnt, s)
      end
  | EmptyString => (acc, cnt, s)
  end.

Definition split_sign (s : string) : bool * string :=
  match s with
  | String c s' =>
      if bool_decide (c = "-"%char) then (true, s')
      else if bool_decide (c = "+"%char) then (false, s')
      else (false, s)
  | EmptyString => (false, s)
  end.

(** [parseInt(v)] with no radix argument: radix 16 after a [0x] prefix,
    radix 10 otherwise; NaN without a digit. *)
Definition parseInt (v : option string) : num :=
  match v with
  | None => NaN
  | Some s =>
      let '(ng, s1) := split_sign (trimStart s) in
      let '(z, n, _) :=
        match s1 with
        | String "0"%char (String x s2) =>
            if bool_decide (x = "x"%char) || bool_decide (x = "X"%char)
            then digits 16 s2 0 0 else digits 10 s1 0 0
        | _ => digits 10 s1 0 0
        end in
      if n =? 0 then NaN else of_Z (if ng then - z else z)
  end.

(** The exponent part [e±ddd] at the head of [s]; 0 when there is none or
    when it has no digit. *)
Definition exponent (s : string) : Z :=
  match s with
  | String c s' =>
      if bool_decide (c = "e"%char) || bool_decide (c = "E"%char) then
        let '(ng, s2) := split_sign s' in
        let '(z, n, _) := digits 10 s2 0 0 in
        if n =? 0 then 0 else if ng then - z else z
      else 0
  | EmptyString => 0
  end.

(** The longest prefix of [s] that is an unsigned decimal literal. *)
Definition parseFloat_unsigned (s : string) : num :=
  if String.prefix "Infinity" s then PInf else
  let '(ip, ni, r1) := digits 10 s 0 0 in
  let '(m, nf, r2) :=
    match r1 with
    | String "."%char r => digits 10 r ip 0
    | _ => (ip, 0, r1)
    end in
  if ni + nf =? 0 then NaN else dec m (exponent r2 - nf).

(** [parseFloat(v)]; [undefined] converts to a string that is no number. *)
Definition parseFloat (v : option string) : num :=
  match v with
  | None => NaN
  | Some s =>
      let '(ng, s1) := split_sign (trimStart s) in
      let x := parseFloat_unsigned s1 in
      if ng then neg x else x
  end.

End Str.

Import JS Str.

(** The arithmetic is evaluated on closed terms only; conversion unfolds it
    last. *)
#[global] Opaque of_Z dec rnd rnd_pos one huge.

(** ** Data model *)

(** A raw row: column name to cell text. *)
Abbreviation RawStatRow := (gmap string string).

(** A record of the batter pool. [games] and [war] are absent from the
    placeholder records. *)
Module Batter.
Record t : Type := Make {
  name : string;
  position : string;
  handedness : string;
  bt : num;
  obt : num;
  traits : string;
  games : option num;
  war : option num
}.

#[global] Instance eq_dec : EqDecision t.
Proof. solve_decision. Defined.

(** [{...p, position: pos}] *)
Definition with_position (p : t) (pos : string) : t :=
  Make (name p) pos (handedness p) (bt p) (obt p) (traits p) (games p)
    (war p).
End Batter.

(** A record of the pitcher pool. [games], [starts] and [ip] are absent from
    the placeholder records. *)
Module Pitcher.
Record t : Type := Make {
  name : string;
  handedness : string;
  pd : string;
  bt : num;
  obt : num;
  traits : string;
  games : option num;
  starts : option num;
  ip : option num
}.

#[global] Instance eq_dec : EqDecision t.
Proof. solve_decision. Defined.
End Pitcher.

(** An object of the heap as far as the program can tell objects apart: the
    record [val] and the identity [oid] of the object. The normaliser
    allocates one object per accepted row and [oid] counts these
    allocations; [p !== q] on two objects of a pool compares the identities.
    A spread copy [{...p, position: pos}] is a new object that never enters
    a pool again; it keeps the [oid] of [p] as its provenance. *)
Record obj (A : Type) : Type := Obj { oid : nat; val : A }.
Arguments Obj {A} oid val.
Arguments oid {A} o.
Arguments val {A} o.

Definition same_obj {A} (p q : obj A) : bool := bool_decide (oid p = oid q).

Record Roster : Type := {
  positionPlayers : list Batter.t;
  startingPitchers : list Pitcher.t;
  reliefPitchers : list Pitcher.t
}.

#[global] Instance Roster_eq_dec : EqDecision Roster.
Proof. solve_decision. Defined.

(** The component state that [generateRoster] reads and writes. *)
Record AppState : Type := {
  battingStats : option (list RawStatRow);
  pitchingStats : option (list RawStatRow);
  roster : Roster;
  isGenerating : bool
}.

(** [Math.random] as an injected source: the numbers it will return, and how
    many of them have been drawn. *)
Record RandomSource : Type := {
  draws : nat → num;
  cursor : nat
}.

Definition random (g : RandomSource) : num * RandomSource :=
  (draws g (cursor g), {| draws := draws g; cursor := S (cursor g) |}).

(** ** Rating converters *)

Definition calcBT (avg : option string) : num :=
  let bt := round (mul (parseFloat avg) (of_Z 100)) in
  if isNaN bt then Fin 0 else bt.

Definition calcOBT (obp : option string) : num :=
  let obt := round (mul (parseFloat obp) (of_Z 100)) in
  if isNaN obt then Fin 0 else obt.

Definition calcPD (era : option string) : string :=
  if isNaN (parseFloat era) then "d4" else
  let eraNum := parseFloat era in
  if lt eraNum (dec 200 (-2)) then "d20"
  else if lt eraNum (dec 300 (-2)) then "d12"
  else if lt eraNum (dec 400 (-2)) then "d8"
  else if lt eraNum (dec 500 (-2)) then "d4"
  else if lt eraNum (dec 600 (-2)) then "-d4"
  else if lt eraNum (dec 700 (-2)) then "-d8"
  else if lt eraNum (dec 800 (-2)) then "-d12"
  else "-d20".

(** ** Name annotations and positions *)

Definition getHandedness (name : option string) : string :=
  if negb (truthy name) then "R"
  else if endsWith (default "" name) "*" then "L"
  else if endsWith (default "" name) "#" then "S"
  else "R".

Definition cleanName (name : option string) : string :=
  if negb (truthy name) then ""
  else replace_trailing_mark (default "" name).

Definition getPosition (posStr : option string) : string :=
  if negb (truthy posStr) then "UT" else
  let posStr := default "" posStr in
  if includes posStr "C" then "C"
  else if includes posStr "1B" then "1B"
  else if includes posStr "2B" then "2B"
  else if includes posStr "3B" then "3B"
  else if includes posStr "SS" then "SS"
  else if includes posStr "LF" then "LF"
  else if includes posStr "CF" then "CF"
  else if includes posStr "RF" then "RF"
  else if includes posStr "OF" then "OF"
  else if includes posStr "DH" then "DH"
  else "UT".

(** ** Trait inferencer *)

(** [traits.push(t)] *)
Definition push {A} (l : list A) (x : A) : list A := l ++ [x].

Definition calcBattingTraits (player : RawStatRow) : string :=
  let traits : list string := [] in
  let hr := or0 (parseInt (player !! "HR")) in
  let slg := or0 (parseFloat (player !! "SLG")) in
  let traits :=
    if ge hr (of_Z 35) || ge slg (dec 560 (-3)) then push traits "P++"
    else if ge hr (of_Z 25) || ge slg (dec 475 (-3)) then push traits "P+"
    else if le hr (of_Z 5) then push traits "P-"
    else traits in
  let doubles := or0 (parseInt (player !! "2B")) in
  let pa := or0 (parseInt (player !! "PA")) in
  let kRate :=
    if gt pa (of_Z 0) then div (or0 (parseInt (player !! "SO"))) pa
    else of_Z 0 in
  let traits :=
    if ge doubles (of_Z 35) || lt kRate (dec 12 (-2)) then push traits "C+"
    else if gt kRate (dec 25 (-2)) then push traits "C-"
    else traits in
  let sb := or0 (parseInt (player !! "SB")) in
  let traits :=
    if ge sb (of_Z 20) then push traits "S+"
    else if eqb sb (of_Z 0) then push traits "S-"
    else traits in
  let pos := default "" (player !! "Pos") in
  let traits :=
    if includes pos "C" || includes pos "SS" || includes pos "CF" then
      if gt (parseFloat (player !! "WAR")) (dec 15 (-1)) then push traits "D+"
      else traits
    else traits in
  join " " traits.

Definition calcPitchingTraits (player : RawStatRow) : string :=
  let traits : list string := [] in
  let ip := or0 (parseFloat (player !! "IP")) in
  let so := or0 (parseInt (player !! "SO")) in
  let kRate := if gt ip (of_Z 0) then div (mul so (of_Z 9)) ip else of_Z 0 in
  let traits := if ge kRate (of_Z 8) then push traits "K+" else traits in
  let hr := or0 (parseInt (player !! "HR")) in
  let hr9 := if gt ip (of_Z 0) then div (mul hr (of_Z 9)) ip else of_Z 0 in
  let era := or0 (parseFloat (player !! "ERA")) in
  let traits :=
    if lt hr9 (dec 7 (-1)) && lt era (dec 35 (-1)) then push traits "GB+"
    else traits in
  let bb := or0 (parseInt (player !! "BB")) in
  let bbRate := if gt ip (of_Z 0) then div (mul bb (of_Z 9)) ip else of_Z 0 in
  let traits :=
    if lt bbRate (of_Z 2) then push traits "CN+"
    else if gt bbRate (of_Z 4) then push traits "CN-"
    else traits in
  let traits := if gt ip (of_Z 170) then push traits "ST+" else traits in
  join " " traits.

(** ** [Array.prototype.sort] *)

(** The sort of the language is stable, and a comparator result that is NaN
    counts as 0. With a comparator that is consistent the sorted array is
    determined by these two facts, whatever algorithm the engine runs; the
    embedding inserts every element, from the last to the first, in front of
    the first element it does not have to follow. *)
Section ArraySort.
Context {A : Type} (comparefn : A → A → num).

(** [comparefn(a, b) > 0]: [a] has to come after [b]. *)
Definition follows (a b : A) : bool := gt (comparefn a b) (Fin 0).

Fixpoint place (x : A) (l : list A) : list A :=
  match l with
  | [] => [x]
  | y :: l' => if follows x y then y :: place x l' else x :: l
  end.

Definition sort (l : list A) : list A := foldr place [] l.
End ArraySort.

(** ** Roster generation *)

Definition alert_missing : string :=
  "Please upload both batting and pitching stats files with valid data.".

(** The guard of the batting loop: the row is skipped when it holds. *)
Definition skipBatter (player : RawStatRow) : bool :=
  negb (truthy (player !! "Player")) || negb (truthy (player !! "BA"))
  || negb (gt (parseInt (player !! "PA")) (of_Z 0)
           || gt (parseInt (player !! "G")) (of_Z 0)).

Definition mkBatter (player : RawStatRow) : Batter.t :=
  {| Batter.name := cleanName (player !! "Player");
     Batter.position := getPosition (player !! "Pos");
     Batter.handedness := getHandedness (player !! "Player");
     Batter.bt := calcBT (player !! "BA");
     Batter.obt := calcOBT (player !! "OBP");
     Batter.traits := calcBattingTraits player;
     Batter.games := Some (or0 (parseInt (player !! "G")));
     Batter.war := Some (or0 (parseFloat (player !! "WAR"))) |}.

(** One turn of [for (const player of battingStats)]. *)
Definition batterStep (processedBatters : list (obj Batter.t))
    (player : RawStatRow) : list (obj Batter.t) :=
  if skipBatter player then processedBatters
  else push processedBatters (Obj (length processedBatters) (mkBatter player)).

Definition processBatters (battingStats : list RawStatRow)
  : list (obj Batter.t) :=
  foldl batterStep [] battingStats.

(** The guard of the pitching loop. *)
Definition skipPitcher (player : RawStatRow) : bool :=
  negb (truthy (player !! "Player")) || negb (truthy (player !! "ERA"))
  || negb (gt (parseFloat (player !! "IP")) (of_Z 0)).

Definition mkPitcher (r1 r2 : num) (player : RawStatRow) : Pitcher.t :=
  {| Pitcher.name := cleanName (player !! "Player");
     Pitcher.handedness := getHandedness (player !! "Player");
     Pitcher.pd := calcPD (player !! "ERA");
     Pitcher.bt := add (floor (mul r1 (of_Z 10))) (of_Z 10);
     Pitcher.obt := add (floor (mul r2 (of_Z 10))) (of_Z 15);
     Pitcher.traits := calcPitchingTraits player;
     Pitcher.games := Some (or0 (parseInt (player !! "G")));
     Pitcher.starts := Some (or0 (parseInt (player !! "GS")));
     Pitcher.ip := Some (or0 (parseFloat (player !! "IP"))) |}.

(** One turn of [for (const player of pitchingStats)]; an accepted row draws
    two random numbers, first for [bt], then for [obt]. *)
Definition pitcherStep (acc : list (obj Pitcher.t) * RandomSource)
    (player : RawStatRow) : list (obj Pitcher.t) * RandomSource :=
  let '(processedPitchers, g) := acc in
  if skipPitcher player then acc
  else
    let '(r1, g1) := random g in
    let '(r2, g2) := random g1 in
    (push processedPitchers
       (Obj (length processedPitchers) (mkPitcher r1 r2 player)), g2).

Definition processPitchers (g : RandomSource) (pitchingStats : list RawStatRow)
  : list (obj Pitcher.t) * RandomSource :=
  foldl pitcherStep ([], g) pitchingStats.

(** A field of a pool record is always present; [undefined] would behave as
    NaN in the arithmetic below. *)
Definition numField (v : option num) : num := default NaN v.

(** [(a, b) => b.war - a.war] *)
Definition byWar (a b : obj Batter.t) : num :=
  sub (numField (Batter.war (val b))) (numField (Batter.war (val a))).

(** [(a, b) => b.ip - a.ip] *)
Definition byIp (a b : obj Pitcher.t) : num :=
  sub (numField (Pitcher.ip (val b))) (numField (Pitcher.ip (val a))).

(** [p => p.starts > 5 || (p.games > 0 && p.starts / p.games > 0.5)] *)
Definition isStarter (p : obj Pitcher.t) : bool :=
  let starts := numField (Pitcher.starts (val p)) in
  let games := numField (Pitcher.games (val p)) in
  gt starts (of_Z 5)
  || (gt games (of_Z 0) && gt (div starts games) (dec 5 (-1))).

Definition selectStarters (processedPitchers : list (obj Pitcher.t))
  : list (obj Pitcher.t) :=
  take 5 (sort byIp (List.filter isStarter processedPitchers)).

Definition selectRelievers (processedPitchers : list (obj Pitcher.t))
  : list (obj Pitcher.t) :=
  take 7 (sort byIp
            (List.filter (λ p, negb (isStarter p)) processedPitchers)).

Definition positions : list string :=
  ["C"; "1B"; "2B"; "3B"; "SS"; "LF"; "CF"; "RF"].

Definition isUtility (p : obj Batter.t) : bool :=
  let position := Batter.position (val p) in
  bool_decide (position = "UT") || bool_decide (position = "OF")
  || bool_decide (position = "DH").

Definition reassign (p : obj Batter.t) (pos : string) : obj Batter.t :=
  Obj (oid p) (Batter.with_position (val p) pos).

(** One turn of [for (const pos of positions)] on the pair of [lineup] and
    [remainingBatters]. *)
Definition lineupStep (st : list (obj Batter.t) * list (obj Batter.t))
    (pos : string) : list (obj Batter.t) * list (obj Batter.t) :=
  let '(lineup, remainingBatters) := st in
  let positionPlayers :=
    List.filter (λ p, bool_decide (Batter.position (val p) = pos))
      remainingBatters in
  match positionPlayers with
  | first :: _ =>
      (push lineup first,
       List.filter (λ p, negb (same_obj p first)) remainingBatters)
  | [] =>
      match List.find isUtility remainingBatters with
      | Some utility =>
          (push lineup (reassign utility pos),
           List.filter (λ p, negb (same_obj p utility)) remainingBatters)
      | None =>
          match remainingBatters with
          | best :: rest => (push lineup (reassign best pos), rest)
          | [] => (lineup, remainingBatters)
          end
      end
  end.

Definition selectLineup (processedBatters : list (obj Batter.t))
  : list (obj Batter.t) * list (obj Batter.t) :=
  foldl lineupStep ([], processedBatters) positions.

(** [while (l.length < target) l.push(dummy(l.length + 1))]; the loop makes
    [target - l.length] turns. *)
Fixpoint padLoop {A} (turns : nat) (dummy : nat → A) (l : list A) : list A :=
  match turns with
  | O => l
  | S turns' => padLoop turns' dummy (push l (dummy (length l + 1)%nat))
  end.

Definition padTo {A} (target : nat) (dummy : nat → A) (l : list A) : list A :=
  padLoop (target - length l) dummy l.

Definition dummyBench (n : nat) : Batter.t :=
  {| Batter.name := "Bench Player " +:+ pretty n;
     Batter.position := "UT";
     Batter.handedness := "R";
     Batter.bt := of_Z 20;
     Batter.obt := of_Z 25;
     Batter.traits := "";
     Batter.games := None;
     Batter.war := None |}.

Definition dummyStarter (n : nat) : Pitcher.t :=
  {| Pitcher.name := "Starting Pitcher " +:+ pretty n;
     Pitcher.handedness := "R";
     Pitcher.pd := "d4";
     Pitcher.bt := of_Z 15;
     Pitcher.obt := of_Z 20;
     Pitcher.traits := "";
     Pitcher.games := None;
     Pitcher.starts := None;
     Pitcher.ip := None |}.

Definition dummyReliever (n : nat) : Pitcher.t :=
  {| Pitcher.name := "Relief Pitcher " +:+ pretty n;
     Pitcher.handedness := "R";
     Pitcher.pd := "d4";
     Pitcher.bt := of_Z 12;
     Pitcher.obt := of_Z 18;
     Pitcher.traits := "";
     Pitcher.games := None;
     Pitcher.starts := None;
     Pitcher.ip := None |}.

(** The body of the [try] block: from the two row sets to the roster. *)
Definition assemble (g : RandomSource)
    (battingStats pitchingStats : list RawStatRow) : Roster * RandomSource :=
  let processedBatters := sort byWar (processBatters battingStats) in
  let '(processedPitchers, g') := processPitchers g pitchingStats in
  let starters := selectStarters processedPitchers in
  let relievers := selectRelievers processedPitchers in
  let '(lineup, remainingBatters) := selectLineup processedBatters in
  let bench := take 4 remainingBatters in
  let finalBench := padTo 4 dummyBench (val <$> bench) in
  let finalStarters := padTo 5 dummyStarter (val <$> starters) in
  let finalRelievers := padTo 7 dummyReliever (val <$> relievers) in
  ({| positionPlayers := (val <$> lineup) ++ finalBench;
      startingPitchers := finalStarters;
      reliefPitchers := finalRelievers |}, g').

(** What a run of [generateRoster] leaves behind: the component state, the
    random source, and the messages shown with [alert]. *)
Record Outcome : Type := {
  state : AppState;
  source : RandomSource;
  alerts : list string
}.

(** [!stats] and [stats.length === 0] *)
Definition unset (stats : option (list RawStatRow)) : bool :=
  match stats with None => true | Some _ => false end.

Definition noRows (stats : option (list RawStatRow)) : bool :=
  match stats with Some [] => true | _ => false end.

Definition generateRoster (g : RandomSource) (st : AppState) : Outcome :=
  if unset (battingStats st) || unset (pitchingStats st)
     || noRows (battingStats st) || noRows (pitchingStats st) then
    {| state := st; source := g; alerts := [alert_missing] |}
  else
    let built :=
      assemble g (default [] (battingStats st))
        (default [] (pitchingStats st)) in
    {| state := {| battingStats := battingStats st;
                   pitchingStats := pitchingStats st;
                   roster := built.1;
                   isGenerating := false |};
       source := built.2;
       alerts := [] |}.

(** * The notions of the specification *)

(** ** Rating tiers (§4.1) *)

(** The ascending ERA thresholds and the tier below each of them. *)
Definition pitchDieTable : list (Z * string) :=
  [(2, "d20"); (3, "d12"); (4, "d8"); (5, "d4");
   (6, "-d4"); (7, "-d8"); (8, "-d12")].

Fixpoint pitchDieTier (table : list (Z * string)) (era : num) : string :=
  match table with
  | [] => "-d20"
  | (threshold, tier) :: table' =>
      if lt era (of_Z threshold) then tier else pitchDieTier table' era
  end.

Definition pitchDie (eraString : option string) : string :=
  match parseFloat eraString with
  | NaN => "d4"
  | era => pitchDieTier pitchDieTable era
  end.

(** ** Trait categories (§4.2) *)

(** A counting or rate statistic of a row, 0 when the cell is missing or
    does not parse. *)
Definition intStat (row : RawStatRow) (col : string) : num :=
  match parseInt (row !! col) with NaN => Fin 0 | n => n end.

Definition floatStat (row : RawStatRow) (col : string) : num :=
  match parseFloat (row !! col) with NaN => Fin 0 | x => x end.

(** The rules of a category in their order; the first rule whose condition
    holds gives the tag of the category. *)
Fixpoint firstMatching (rules : list (bool * string)) : option string :=
  match rules with
  | [] => None
  | (condition, tag) :: rules' =>
      if condition then Some tag else firstMatching rules'
  end.

Definition powerRules (row : RawStatRow) : list (bool * string) :=
  let hr := intStat row "HR" in
  let slg := floatStat row "SLG" in
  [(ge hr (of_Z 35) || ge slg (dec 560 (-3)), "P++");
   (ge hr (of_Z 25) || ge slg (dec 475 (-3)), "P+");
   (le hr (of_Z 5), "P-")].

(** Strikeouts per plate appearance, 0 without a plate appearance. *)
Definition strikeoutRate (row : RawStatRow) : num :=
  if gt (intStat row "PA") (Fin 0)
  then div (intStat row "SO") (intStat row "PA")
  else Fin 0.

Definition contactRules (row : RawStatRow) : list (bool * string) :=
  [(ge (intStat row "2B") (of_Z 35) || lt (strikeoutRate row) (dec 12 (-2)),
    "C+");
   (gt (strikeoutRate row) (dec 25 (-2)), "C-")].

Definition speedRules (row : RawStatRow) : list (bool * string) :=
  [(ge (intStat row "SB") (of_Z 20), "S+");
   (eqb (intStat row "SB") (Fin 0), "S-")].

Definition defenseRules (row : RawStatRow) : list (bool * string) :=
  let pos := default "" (row !! "Pos") in
  [((includes pos "C" || includes pos "SS" || includes pos "CF")
    && gt (floatStat row "WAR") (dec 15 (-1)), "D+")].

(** A pitcher's count of [col] per nine innings, 0 without an inning. *)
Definition perNine (row : RawStatRow) (col : string) : num :=
  if gt (floatStat row "IP") (Fin 0)
  then div (mul (intStat row col) (of_Z 9)) (floatStat row "IP")
  else Fin 0.

Definition strikeoutRules (row : RawStatRow) : list (bool * string) :=
  [(ge (perNine row "SO") (of_Z 8), "K+")].

Definition groundBallRules (row : RawStatRow) : list (bool * string) :=
  [(lt (perNine row "HR") (dec 7 (-1))
    && lt (floatStat row "ERA") (dec 35 (-1)), "GB+")].

Definition controlRules (row : RawStatRow) : list (bool * string) :=
  [(lt (perNine row "BB") (of_Z 2), "CN+");
   (gt (perNine row "BB") (of_Z 4), "CN-")].

Definition staminaRules (row : RawStatRow) : list (bool * string) :=
  [(gt (floatStat row "IP") (of_Z 170), "ST+")].

(** The tags one after the other with a single space between neighbours:
    the empty string for no tag, and no space before the first or after the
    last tag. *)
Definition spaceJoined (tags : list string) : string :=
  match tags with
  | [] => ""
  | tag :: tags' => tag +:+ foldr (λ t rest, " " +:+ t +:+ rest) "" tags'
  end.

(** The tags that fired, in the order of the categories, joined by spaces. *)
Definition traitString (categories : list (list (bool * string))) : string :=
  join " " (omap firstMatching categories).

Definition batterCategories (row : RawStatRow) : list (list (bool * string)) :=
  [powerRules row; contactRules row; speedRules row; defenseRules row].

Definition pitcherCategories (row : RawStatRow) : list (list (bool * string)) :=
  [strikeoutRules row; groundBallRules row; controlRules row;
   staminaRules row].

(** ** Input filter (§4.3) *)

(** A cell is absent when the row has no such column or the cell is empty. *)
Definition absent (v : option string) : Prop := v = None ∨ v = Some "".

(** A parsed statistic is positive; a cell that does not parse is not. *)
Definition positiveStat (x : num) : Prop := lt (Fin 0) x = true.

Definition excludedBatting (row : RawStatRow) : Prop :=
  absent (row !! "Player")
  ∨ absent (row !! "BA")
  ∨ (¬ positiveStat (parseInt (row !! "PA"))
     ∧ ¬ positiveStat (parseInt (row !! "G"))).

Definition excludedPitching (row : RawStatRow) : Prop :=
  absent (row !! "Player")
  ∨ absent (row !! "ERA")
  ∨ ¬ positiveStat (parseFloat (row !! "IP")).

(** The filter is decidable. *)
#[global] Instance absent_dec (v : option string) : Decision (absent v).
Proof. unfold absent. apply _. Defined.

#[global] Instance positiveStat_dec (x : num) : Decision (positiveStat x).
Proof. unfold positiveStat. apply _. Defined.

#[global] Instance excludedBatting_dec (row : RawStatRow) :
  Decision (excludedBatting row).
Proof. unfold excludedBatting. apply _. Defined.

#[global] Instance excludedPitching_dec (row : RawStatRow) :
  Decision (excludedPitching row).
Proof. unfold excludedPitching. apply _. Defined.

#[global] Typeclasses Opaque absent positiveStat excludedBatting
  excludedPitching.

(** ** Sorting (§4.4, steps 1 and 2) *)

(** [a] may stand before [b] in descending order of [key]. *)
Definition notBelow {A} (key : A → num) (a b : A) : Prop :=
  le (key b) (key a) = true.

(** The comparator [(a, b) => key(b) - key(a)]. *)
Definition byKey {A} (key : A → num) (a b : A) : num := sub (key b) (key a).

(** [l'] is [l] in descending order of [key], the elements of equal key in
    the order they have in [l]. *)
Record StableDescending {A} (key : A → num) (l l' : list A) : Prop := {
  sd_perm : l' ≡ₚ l;
  sd_sorted : StronglySorted (notBelow key) l';
  sd_ties : ∀ k, List.filter (λ a, bool_decide (key a = k)) l'
                 = List.filter (λ a, bool_decide (key a = k)) l
}.

Definition warOf (p : obj Batter.t) : num := numField (Batter.war (val p)).
Definition ipOf (p : obj Pitcher.t) : num := numField (Pitcher.ip (val p)).

(** A pool of batters as the assembler receives it: distinct objects, in
    descending order of WAR. *)
Definition WarSorted (pool : list (obj Batter.t)) : Prop :=
  NoDup (oid <$> pool) ∧ StronglySorted (notBelow warOf) pool.

(** A pool of accepted pitchers: distinct objects with a number for [ip]. *)
Definition PitcherPool (pool : list (obj Pitcher.t)) : Prop :=
  NoDup (oid <$> pool) ∧ Forall (λ p, isNaN (ipOf p) = false) pool.

(** The starter rule of step 2. *)
Definition starterRule (p : obj Pitcher.t) : Prop :=
  let gamesStarted := numField (Pitcher.starts (val p)) in
  let games := numField (Pitcher.games (val p)) in
  gt gamesStarted (of_Z 5) = true
  ∨ (gt games (of_Z 0) = true
     ∧ gt (div gamesStarted games) (dec 5 (-1)) = true).

#[global] Instance starterRule_dec (p : obj Pitcher.t) :
  Decision (starterRule p).
Proof. unfold starterRule. apply _. Defined.

#[global] Typeclasses Opaque starterRule.

(** ** Filling the lineup (§4.4, step 3) *)

(** [b] is the highest-WAR batter of [pool] that satisfies [Q] (the first of
    them in the pool), and [pool'] is [pool] without [b]. *)
Record Chosen (Q : obj Batter.t → Prop) (pool : list (obj Batter.t))
    (b : obj Batter.t) (pool' : list (obj Batter.t)) : Prop := {
  ch_sat : Q b;
  ch_highest : ∀ b', b' ∈ pool → Q b' → lt (warOf b) (warOf b') = false;
  ch_first : ∃ l1 l2, pool = l1 ++ b :: l2 ∧ pool' = l1 ++ l2
                      ∧ Forall (λ p, ¬ Q p) l1;
  ch_removed : oid b ∉ oid <$> pool'
}.

Definition plays (slot : string) (p : obj Batter.t) : Prop :=
  Batter.position (val p) = slot.

Definition flexible (p : obj Batter.t) : Prop :=
  Batter.position (val p) ∈ ["UT"; "OF"; "DH"].

(** The lineup entry [e] is the batter [b] reassigned to [slot]: the same
    player, with the slot for position and every other field as [b] has
    it. *)
Record movedTo (slot : string) (b e : obj Batter.t) : Prop := {
  mv_player : oid e = oid b;
  mv_position : Batter.position (val e) = slot;
  mv_name : Batter.name (val e) = Batter.name (val b);
  mv_handedness : Batter.handedness (val e) = Batter.handedness (val b);
  mv_bt : Batter.bt (val e) = Batter.bt (val b);
  mv_obt : Batter.obt (val e) = Batter.obt (val b);
  mv_traits : Batter.traits (val e) = Batter.traits (val b);
  mv_games : Batter.games (val e) = Batter.games (val b);
  mv_war : Batter.war (val e) = Batter.war (val b)
}.

(** What one slot takes from the pool: the entries it adds to the lineup
    (one, or none when nobody is left) and the pool it leaves. *)
Inductive pick (pool : list (obj Batter.t)) (slot : string)
  : list (obj Batter.t) → list (obj Batter.t) → Prop :=
  | pick_position b pool' :
      Chosen (plays slot) pool b pool' →
      pick pool slot [b] pool'
  | pick_flexible b e pool' :
      Forall (λ p, ¬ plays slot p) pool →
      Chosen flexible pool b pool' →
      movedTo slot b e →
      pick pool slot [e] pool'
  | pick_best b e pool' :
      Forall (λ p, ¬ plays slot p) pool →
      Forall (λ p, ¬ flexible p) pool →
      Chosen (λ _, True) pool b pool' →
      movedTo slot b e →
      pick pool slot [e] pool'
  | pick_nobody :
      pool = [] →
      pick pool slot [] [].

(** The slots taken one after the other, each on the pool the previous one
    left. *)
Inductive fill : list string → list (obj Batter.t) * list (obj Batter.t) →
                 list (obj Batter.t) * list (obj Batter.t) → Prop :=
  | fill_done st : fill [] st st
  | fill_slot slot slots lineup pool entry pool' st' :
      pick pool slot entry pool' →
      fill slots (lineup ++ entry, pool') st' →
      fill (slot :: slots) (lineup, pool) st'.

(** ** Missing input (§7) *)

Definition missing (stats : option (list RawStatRow)) : Prop :=
  stats = None ∨ stats = Some [].

(** * Sample inputs *)

(** Records and rows on which the statements below are exercised. *)
Definition samplePitcher (n : nat) (games starts ip : Z) : obj Pitcher.t :=
  Obj n {| Pitcher.name := "P" +:+ pretty n;
           Pitcher.handedness := "R";
           Pitcher.pd := "d8";
           Pitcher.bt := of_Z 10;
           Pitcher.obt := of_Z 15;
           Pitcher.traits := "";
           Pitcher.games := Some (of_Z games);
           Pitcher.starts := Some (of_Z starts);
           Pitcher.ip := Some (of_Z ip) |}.

Definition samplePitchers : list (obj Pitcher.t) :=
  [samplePitcher 0 50 0 60; samplePitcher 1 22 20 180].

Definition sampleBatter (n : nat) (pos : string) (war : Z) : obj Batter.t :=
  Obj n {| Batter.name := "B" +:+ pretty n;
           Batter.position := pos;
           Batter.handedness := "R";
           Batter.bt := of_Z 28;
           Batter.obt := of_Z 35;
           Batter.traits := "";
           Batter.games := Some (of_Z 100);
           Batter.war := Some (of_Z war) |}.

Definition sampleBatters : list (obj Batter.t) :=
  [sampleBatter 0 "OF" 5; sampleBatter 1 "C" 3; sampleBatter 2 "C" 3].

(** A catcher with WAR 3.0 and BA .280, a batter who never played, and a
    starting pitcher. *)
Definition catcherRow : RawStatRow :=
  list_to_map [("Player", "Soto*"); ("Pos", "C"); ("BA", ".280");
               ("WAR", "3.0"); ("G", "120")].

Definition idleRow : RawStatRow :=
  list_to_map [("Player", "Nobody"); ("BA", ".300"); ("PA", "0"); ("G", "0")].

Definition aceRow : RawStatRow :=
  list_to_map [("Player", "Ace"); ("ERA", "2.00"); ("IP", "180");
               ("G", "22"); ("GS", "20")].

(** A shortstop with power, speed and many strikeouts, a first baseman
    without anything of note, and a strikeout pitcher who walks many. *)
Definition sluggerRow : RawStatRow :=
  list_to_map [("Player", "Slug"); ("Pos", "SS"); ("BA", ".310");
               ("HR", "40"); ("SLG", ".600"); ("2B", "20"); ("PA", "500");
               ("SO", "150"); ("SB", "25"); ("WAR", "5.0"); ("G", "150")].

Definition plainRow : RawStatRow :=
  list_to_map [("Player", "Plain"); ("Pos", "1B"); ("BA", ".260");
               ("HR", "10"); ("SLG", ".400"); ("2B", "20"); ("PA", "500");
               ("SO", "100"); ("SB", "5"); ("WAR", "1.0"); ("G", "140")].

Definition wildRow : RawStatRow :=
  list_to_map [("Player", "Wild"); ("ERA", "4.10"); ("IP", "180");
               ("SO", "200"); ("HR", "30"); ("BB", "90"); ("G", "30");
               ("GS", "30")].

(** A random source that always returns 0.5. *)
Definition fixedSource : RandomSource :=
  {| draws := λ _, dec 5 (-1); cursor := 0 |}.

Definition noRoster : Roster :=
  {| positionPlayers := []; startingPitchers := []; reliefPitchers := [] |}.

(** The component after the upload of a batting file with the catcher alone
    and of a pitching file with the starter alone. *)
Definition oneCatcher : AppState :=
  {| battingStats := Some [catcherRow];
     pitchingStats := Some [aceRow];
     roster := noRoster;
     isGenerating := false |}.

(** The component before any upload. *)
Definition nothingLoaded : AppState :=
  {| battingStats := None;
     pitchingStats := None;
     roster := noRoster;
     isGenerating := false |}.

(** * The rest of the component *)

(** ** Notions used for the converters and the names *)

(** The tiers from the best to the worst, and the place of a tier among
    them. *)
Definition tiers : list string :=
  ["d20"; "d12"; "d8"; "d4"; "-d4"; "-d8"; "-d12"; "-d20"].

Definition tierRank (tier : string) : nat :=
  default 0%nat (fst <$> list_find (λ t, t = tier) tiers).

(** The mark that a handedness stands for at the end of a name. *)
Definition annotation (handedness : string) : string :=
  if bool_decide (handedness = "L") then "*"
  else if bool_decide (handedness = "S") then "#"
  else "".

(** The codes [getPosition] can answer. *)
Definition positionCodes : list string :=
  ["C"; "1B"; "2B"; "3B"; "SS"; "LF"; "RF"; "OF"; "DH"; "UT"].

(** A number that [Math.random] can return: a binary64 value from 0 up to
    the largest one below 1, which is 1 - 2^-53. *)
Definition unitDraw (r : num) : bool :=
  match r with
  | Fin a => (0 <=? a) && (a + 2 ^ 1021 <=? one)
  | _ => false
  end.

(** ** Buttons and roster sheet *)

(** [disabled={!battingStats || !pitchingStats || isGenerating}] *)
Definition generateDisabled (st : AppState) : bool :=
  unset (battingStats st) || unset (pitchingStats st) || isGenerating st.

(** [disabled={!roster.positionPlayers.length}] *)
Definition printDisabled (st : AppState) : bool :=
  bool_decide (length (positionPlayers (roster st)) = 0%nat).

(** [roster.positionPlayers.length > 0 && (...)]: the sheet is rendered. *)
Definition sheetShown (st : AppState) : bool :=
  bool_decide (0 < length (positionPlayers (roster st)))%nat.

(** ** Uploads *)

(** What [Papa.parse] makes of a chosen file: it calls [complete] with the
    rows, or [error]. *)
Inductive Parsed : Type :=
  | Complete (data : list RawStatRow)
  | Failed.

(** [handleBattingUpload] with [event.target.files[0]] ([None] when no file
    was chosen) and what the parser makes of it; [error] only logs. *)
Definition handleBattingUpload (file : option Parsed) (st : AppState)
  : AppState :=
  match file with
  | Some (Complete data) =>
      {| battingStats := Some data;
         pitchingStats := pitchingStats st;
         roster := roster st;
         isGenerating := isGenerating st |}
  | _ => st
  end.

Definition handlePitchingUpload (file : option Parsed) (st : AppState)
  : AppState :=
  match file with
  | Some (Complete data) =>
      {| battingStats := battingStats st;
         pitchingStats := Some data;
         roster := roster st;
         isGenerating := isGenerating st |}
  | _ => st
  end.

(** ** Notions used for the roster *)

(** [x] is the Number value of a whole number from [lo] to [hi]. *)
Definition wholeBetween (lo hi : Z) (x : num) : Prop :=
  ∃ j : Z, lo ≤ j ≤ hi ∧ x = of_Z j.

(** ** More sample inputs *)

(** A batting row and a pitching row from files without counting columns. *)
Definition benchRow : RawStatRow :=
  list_to_map [("Player", "Sub#"); ("BA", ".250"); ("G", "12")].

Definition bareRow : RawStatRow :=
  list_to_map [("Player", "Arm"); ("ERA", "3.10"); ("IP", "45.2")].

(** A batting file of nine players without positions, the later the better
    by WAR. *)
Definition squadRow (n : nat) : RawStatRow :=
  list_to_map [("Player", "B" +:+ pretty n); ("BA", ".250"); ("G", "10");
               ("WAR", pretty n)].

Definition squadRows : list RawStatRow := squadRow <$> seq 0 9.

(** A random source whose first two numbers are 0.5 and whose other numbers
    are 0. *)
Definition halfThenZero : RandomSource :=
  {| draws := λ i, if (i <? 2)%nat then dec 5 (-1) else Fin 0; cursor := 0 |}.

(** The component after the upload of a batting file without rows and of
    the pitching file with the starter. *)
Definition emptyBatting : AppState :=
  {| battingStats := Some [];
     pitchingStats := Some [aceRow];
     roster := noRoster;
     isGenerating := false |}.

(** * Proof automation *)

(** Case analysis on every condition of the goal, the two sides of a
    conjunction first. *)
Ltac split_ifs :=
  repeat match goal with
    | |- context [?a && ?b] => destruct a, b; cbn [andb]
    end;
  repeat match goal with
    | |- context [if ?b then _ else _] => destruct b
    end.

(** * Facts about the embedding of the language *)

#[global] Arguments of_Z : simpl never.
#[global] Arguments dec : simpl never.
#[global] Arguments rnd : simpl never.
#[global] Arguments rnd_pos : simpl never.

Module NumFacts.

#[local] Transparent of_Z dec rnd rnd_pos one huge.

Lemma of_Z_0 : of_Z 0 = Fin 0.
Proof. vm_compute. reflexivity. Qed.

(** The literals of the ERA table are the integers they look like. *)
Lemma dec_thresholds :
  dec 200 (-2) = of_Z 2 ∧ dec 300 (-2) = of_Z 3 ∧ dec 400 (-2) = of_Z 4
  ∧ dec 500 (-2) = of_Z 5 ∧ dec 600 (-2) = of_Z 6 ∧ dec 700 (-2) = of_Z 7
  ∧ dec 800 (-2) = of_Z 8.
Proof. vm_compute. repeat split. Qed.

Lemma rhe_lower (n d : Z) : n / d ≤ rhe n d.
Proof.
  unfold rhe.
  destruct (2 * (n mod d) ?= d); [destruct (Z.even (n / d))|..]; lia.
Qed.

(** Rounding a positive number of units never reaches zero: the smallest
    positive binary64 value is one unit. *)
Lemma rnd_pos_sign (n : Z) :
  0 < n → rnd_pos n 1 = PInf ∨ ∃ m, rnd_pos n 1 = Fin m ∧ 0 < m.
Proof.
  intros Hn. unfold rnd_pos. rewrite Z.div_1_r, Z.mul_1_l.
  set (k := Z.max 0 (Z.log2 n - 52)).
  assert (Hk : 0 ≤ k) by lia.
  assert (Hpow : 0 < 2 ^ k) by (apply Z.pow_pos_nonneg; lia).
  assert (Hle : 2 ^ k ≤ n).
  { transitivity (2 ^ Z.log2 n); [|apply Z.log2_spec; lia].
    apply Z.pow_le_mono_r; [lia|]. pose proof (Z.log2_nonneg n). lia. }
  assert (Hq : 1 ≤ n / 2 ^ k) by (apply Z.div_le_lower_bound; lia).
  pose proof (rhe_lower n (2 ^ k)).
  destruct (huge <=? _); [by left|right].
  eexists; split; [done|]. apply Z.mul_pos_pos; lia.
Qed.

Lemma rnd_pos_zero : rnd_pos 0 1 = Fin 0.
Proof. vm_compute. reflexivity. Qed.

Lemma lt_zero_rnd (n : Z) : lt (Fin 0) (rnd n 1) = bool_decide (0 < n).
Proof.
  unfold rnd. destruct (Z.ltb_spec n 0) as [Hn|Hn].
  - destruct (rnd_pos_sign (- n)) as [->|(m & -> & Hm)]; [lia|..]; simpl.
    + by rewrite bool_decide_eq_false_2 by lia.
    + rewrite bool_decide_eq_false_2 by lia. apply Z.ltb_ge. lia.
  - destruct (decide (n = 0)) as [->|Hne]; [by rewrite rnd_pos_zero|].
    destruct (rnd_pos_sign n) as [->|(m & -> & Hm)]; [lia|..]; simpl.
    + by rewrite bool_decide_eq_true_2 by lia.
    + rewrite bool_decide_eq_true_2 by lia. apply Z.ltb_lt. lia.
Qed.

(** The sign of a difference is the order of its operands: the comparator
    [(a, b) => b.key - a.key] is positive exactly when [a.key < b.key]. *)
Lemma gt_sub_zero (x y : num) :
  isNaN x = false → isNaN y = false → gt (sub y x) (Fin 0) = lt x y.
Proof.
  unfold gt, sub. destruct x as [| | |a], y as [| | |b]; try done; intros _ _.
  change (lt (Fin 0) (rnd (b + - a) 1) = (a <? b)).
  rewrite lt_zero_rnd. destruct (Z.ltb_spec a b).
  - apply bool_decide_eq_true_2. lia.
  - apply bool_decide_eq_false_2. lia.
Qed.

(** A difference of a number with itself is never positive, NaN or not. *)
Lemma gt_sub_self (x : num) : gt (sub x x) (Fin 0) = false.
Proof.
  destruct x as [| | |a]; try done.
  unfold gt, sub. change (lt (Fin 0) (rnd (a + - a) 1) = false).
  rewrite lt_zero_rnd. apply bool_decide_eq_false_2. lia.
Qed.

Lemma lt_irrefl (x : num) : lt x x = false.
Proof. destruct x; try done. apply Z.ltb_irrefl. Qed.

Lemma lt_asym (x y : num) : lt x y = true → lt y x = false.
Proof. destruct x, y; try done; simpl. rewrite Z.ltb_lt, Z.ltb_ge. lia. Qed.

Lemma le_nlt (x y : num) :
  isNaN x = false → isNaN y = false → le x y = negb (lt y x).
Proof.
  destruct x as [| | |a], y as [| | |b]; try done; simpl. intros _ _.
  destruct (Z.leb_spec a b), (Z.ltb_spec b a); try done; lia.
Qed.

Lemma le_trans (x y z : num) :
  le x y = true → le y z = true → le x z = true.
Proof. destruct x, y, z; try done; simpl. rewrite !Z.leb_le. lia. Qed.

Lemma le_not_lt (x y : num) : le x y = true → lt y x = false.
Proof. destruct x, y; try done; simpl. rewrite Z.leb_le, Z.ltb_ge. lia. Qed.

Lemma le_isNaN (x y : num) :
  le x y = true → isNaN x = false ∧ isNaN y = false.
Proof. by destruct x, y. Qed.

End NumFacts.

Module StrFacts.

Lemma app_empty (s : string) : s +:+ "" = s.
Proof.
  induction s as [|c s IH]; [done|].
  change (String c (s +:+ "") = String c s). by rewrite IH.
Qed.

Lemma prefix_cons_inv (c : ascii) (t s : string) :
  String.prefix (String c t) s = true → ∃ s', s = String c s'.
Proof.
  destruct s as [|b s']; simpl; [done|].
  destruct (Ascii.ascii_dec c b) as [->|]; [eauto|done].
Qed.

(** A string that contains a non-empty [t] contains the first code unit of
    [t]. *)
Lemma includes_head (s : string) (c : ascii) (t : string) :
  includes s (String c t) = true → includes s (String c "") = true.
Proof.
  induction s as [|b s IH]; [done|].
  cbn [includes]. intros [Hp|Hi]%orb_true_iff; apply orb_true_iff.
  - left. apply prefix_cons_inv in Hp as [s' [= -> ->]].
    simpl. destruct (Ascii.ascii_dec c c); [by destruct s'|done].
  - right. auto.
Qed.

End StrFacts.

(** * The embedding on known values *)

Module Examples.

(** Rounding is that of the language: 0.1 + 0.2 is above 0.3, and 1.005 *
    100 is below 100.5. *)
Lemma sum_of_tenths : lt (dec 3 (-1)) (add (dec 1 (-1)) (dec 2 (-1))) = true.
Proof. vm_compute. reflexivity. Qed.

Lemma product_below :
  lt (mul (dec 1005 (-3)) (of_Z 100)) (dec 1005 (-1)) = true.
Proof. vm_compute. reflexivity. Qed.

(** Integers above 2^53 round to even significands. *)
Lemma large_integers :
  of_Z (2 ^ 53 + 1) = of_Z (2 ^ 53) ∧ of_Z (2 ^ 53 + 3) = of_Z (2 ^ 53 + 4).
Proof. vm_compute. split; reflexivity. Qed.

Lemma parseFloat_values :
  parseFloat (Some "  -1.5e1x") = of_Z (-15)
  ∧ parseFloat (Some ".5") = dec 5 (-1)
  ∧ parseFloat (Some "7.") = of_Z 7
  ∧ parseFloat (Some "1e") = of_Z 1
  ∧ parseFloat (Some ".") = NaN
  ∧ parseFloat (Some "abc") = NaN
  ∧ parseFloat (Some "-Infinity") = NInf
  ∧ parseFloat (Some "1e999") = PInf
  ∧ parseFloat None = NaN.
Proof. vm_compute. repeat split. Qed.

Lemma parseInt_values :
  parseInt (Some " -12.7") = of_Z (-12)
  ∧ parseInt (Some "0x1A") = of_Z 26
  ∧ parseInt (Some "08") = of_Z 8
  ∧ parseInt (Some "") = NaN
  ∧ parseInt (Some "px") = NaN
  ∧ parseInt None = NaN.
Proof. vm_compute. repeat split. Qed.

(** The examples of the specification for the converters and the names. *)
Lemma calcBT_values :
  calcBT (Some ".300") = of_Z 30 ∧ calcBT (Some "abc") = of_Z 0.
Proof. vm_compute. split; reflexivity. Qed.

Lemma names :
  cleanName (Some "Soto*") = "Soto" ∧ getHandedness (Some "Soto*") = "L"
  ∧ getHandedness (Some "Judge#") = "S"
  ∧ getHandedness (Some "Ohtani") = "R".
Proof. vm_compute. repeat split. Qed.

(** An ERA string a hair below 2 parses to the number 2 and gets [d12]. *)
Lemma calcPD_rounded : calcPD (Some "1.99999999999999999999") = "d12".
Proof. vm_compute. reflexivity. Qed.

End Examples.

(** * Rating converters *)

(** C4 — [calcPD] gives tier [d4] to an ERA string that does not parse and
    otherwise the tier of the first threshold of the ascending table that the
    parsed ERA is strictly below ([-d20] from 8.00 on); an ERA of exactly
    2.00 is [d12] and 1.99 is [d20]. *)
Theorem calcPD_table :
  (∀ era : option string,
     calcPD era =
       match parseFloat era with
       | NaN => "d4"
       | eraNum =>
           pitchDieTier
             [(2, "d20"); (3, "d12"); (4, "d8"); (5, "d4");
              (6, "-d4"); (7, "-d8"); (8, "-d12")] eraNum
       end)
  ∧ calcPD (Some "2.00") = "d12"
  ∧ calcPD (Some "1.99") = "d20".
Proof.
  split; [|split; vm_compute; reflexivity].
  intros era. unfold calcPD.
  destruct NumFacts.dec_thresholds as (-> & -> & -> & -> & -> & -> & ->).
  destruct (parseFloat era); reflexivity.
Qed.

(** * Trait inferencer *)

Module TraitFacts.

Lemma intStat_or0 (row : RawStatRow) (col : string) :
  intStat row col = or0 (parseInt (row !! col)).
Proof. unfold intStat, or0. by destruct (parseInt _). Qed.

Lemma floatStat_or0 (row : RawStatRow) (col : string) :
  floatStat row col = or0 (parseFloat (row !! col)).
Proof. unfold floatStat, or0. by destruct (parseFloat _). Qed.

(** The defence rule reads WAR without the [|| 0] fallback; against a
    positive bound NaN and 0 fail alike. *)
Lemma gt_or0_above (x : num) : gt (or0 x) (dec 15 (-1)) = gt x (dec 15 (-1)).
Proof. destruct x; reflexivity. Qed.

Lemma calcBattingTraits_rules (row : RawStatRow) :
  calcBattingTraits row = traitString (batterCategories row).
Proof.
  unfold calcBattingTraits, traitString, batterCategories, powerRules,
    contactRules, speedRules, defenseRules, strikeoutRate.
  replace (gt (floatStat row "WAR") (dec 15 (-1)))
    with (gt (parseFloat (row !! "WAR")) (dec 15 (-1)))
    by (rewrite floatStat_or0; symmetry; apply gt_or0_above).
  rewrite !intStat_or0, !floatStat_or0, NumFacts.of_Z_0.
  cbn [omap list_omap firstMatching push app].
  split_ifs; reflexivity.
Qed.

Lemma calcPitchingTraits_rules (row : RawStatRow) :
  calcPitchingTraits row = traitString (pitcherCategories row).
Proof.
  unfold calcPitchingTraits, traitString, pitcherCategories, strikeoutRules,
    groundBallRules, controlRules, staminaRules, perNine.
  rewrite !intStat_or0, !floatStat_or0, NumFacts.of_Z_0.
  cbn [omap list_omap firstMatching push app].
  split_ifs; reflexivity.
Qed.

(** [traits.join(' ')] puts one space between neighbours and nothing
    around them. *)
Lemma join_spaceJoined (tags : list string) :
  join " " tags = spaceJoined tags.
Proof.
  destruct tags as [|tag tags]; [done|]. cbn [spaceJoined].
  revert tag. induction tags as [|t tags IH]; intros tag.
  { symmetry. apply StrFacts.app_empty. }
  change (join " " (tag :: t :: tags))
    with (tag +:+ " " +:+ join " " (t :: tags)).
  by rewrite IH.
Qed.

End TraitFacts.

(** C8 — the traits string of a row is the space-joined list of the tags
    that fired, category by category in the fixed order (power, contact,
    speed, defence for a batter; strikeouts, ground ball, control, stamina
    for a pitcher); each category gives at most one tag, that of its first
    rule that holds, whatever the other categories give; a statistic whose
    cell is missing or does not parse counts as 0, and the strikeout rate of
    a batter without a plate appearance is 0. On the sample rows: every
    category fires for the shortstop and none for the first baseman, the
    catcher without counting columns and the batter with PA=0 get [P-], [C+]
    and [S-], and the two pitchers get three tags each. *)
Theorem traits_by_category :
  (∀ row : RawStatRow,
     calcBattingTraits row =
       spaceJoined (omap firstMatching
                      [powerRules row; contactRules row; speedRules row;
                       defenseRules row]))
  ∧ (∀ row : RawStatRow,
       calcPitchingTraits row =
         spaceJoined (omap firstMatching
                        [strikeoutRules row; groundBallRules row;
                         controlRules row; staminaRules row]))
  ∧ (∀ (row : RawStatRow) (col : string),
       row !! col = None ∨ parseInt (row !! col) = NaN →
       intStat row col = Fin 0)
  ∧ (∀ (row : RawStatRow) (col : string),
       row !! col = None ∨ parseFloat (row !! col) = NaN →
       floatStat row col = Fin 0)
  ∧ (∀ row : RawStatRow,
       intStat row "PA" = Fin 0 → strikeoutRate row = Fin 0)
  ∧ calcBattingTraits sluggerRow = "P++ C- S+ D+"
  ∧ calcBattingTraits plainRow = ""
  ∧ calcBattingTraits catcherRow = "P- C+ S- D+"
  ∧ calcBattingTraits idleRow = "P- C+ S-"
  ∧ calcPitchingTraits wildRow = "K+ CN- ST+"
  ∧ calcPitchingTraits aceRow = "GB+ CN+ ST+".
Proof.
  split.
  { intros row. rewrite TraitFacts.calcBattingTraits_rules.
    apply TraitFacts.join_spaceJoined. }
  split.
  { intros row. rewrite TraitFacts.calcPitchingTraits_rules.
    apply TraitFacts.join_spaceJoined. }
  split; [|split; [|split]].
  - intros row col. unfold intStat. intros [->| ->]; reflexivity.
  - intros row col. unfold floatStat. intros [->| ->]; reflexivity.
  - intros row HPA. unfold strikeoutRate. by rewrite HPA.
  - vm_compute. repeat split.
Qed.

(** The batter who never played has PA=0, hence strikeout rate 0. *)
Lemma traits_by_category_witness : strikeoutRate idleRow = Fin 0.
Proof.
  apply (proj1 (proj2 (proj2 (proj2 (proj2 traits_by_category)))) idleRow).
  vm_compute. reflexivity.
Defined.

(** * Player normaliser *)

Module NormalizerFacts.

(** The [CF] test of [getPosition] comes after the [C] test and can never
    succeed. *)
Lemma getPosition_not_CF (posStr : option string) : getPosition posStr ≠ "CF".
Proof.
  unfold getPosition. destruct (truthy posStr); [|done]. cbn [negb].
  destruct (includes _ "C") eqn:HC; [done|].
  destruct (includes _ "1B"); [discriminate|].
  destruct (includes _ "2B"); [discriminate|].
  destruct (includes _ "3B"); [discriminate|].
  destruct (includes _ "SS"); [discriminate|].
  destruct (includes _ "LF"); [discriminate|].
  destruct (includes _ "CF") eqn:HCF.
  - apply StrFacts.includes_head in HCF. congruence.
  - repeat (destruct (includes _ _); [discriminate|]). discriminate.
Qed.

Lemma truthy_absent (v : option string) : truthy v = false ↔ absent v.
Proof.
  unfold absent. destruct v as [[|c s]|]; simpl; split; try done; auto.
  intros [?|?]; done.
Qed.

Lemma gt_zero_positive (x : num) : gt x (of_Z 0) = true ↔ positiveStat x.
Proof. by rewrite NumFacts.of_Z_0. Qed.

Lemma skipBatter_excluded (row : RawStatRow) :
  skipBatter row = true ↔ excludedBatting row.
Proof.
  unfold skipBatter, excludedBatting.
  rewrite !orb_true_iff, !negb_true_iff, orb_false_iff, !truthy_absent.
  rewrite <- !not_true_iff_false, !gt_zero_positive. tauto.
Qed.

Lemma skipPitcher_excluded (row : RawStatRow) :
  skipPitcher row = true ↔ excludedPitching row.
Proof.
  unfold skipPitcher, excludedPitching.
  rewrite !orb_true_iff, !negb_true_iff, !truthy_absent.
  rewrite <- !not_true_iff_false, !gt_zero_positive. tauto.
Qed.

(** A filter by a boolean test is the filter by the property it decides. *)
Lemma filter_bool_Prop {A} (f : A → bool) (P : A → Prop)
    `{!∀ x, Decision (P x)} (l : list A) :
  (∀ x, f x = true ↔ P x) → List.filter f l = filter P l.
Proof.
  intros Hf. induction l as [|x l IH]; [done|].
  cbn [List.filter]. rewrite filter_cons, IH.
  destruct (f x) eqn:Hx, (decide (P x)) as [HP|HP]; try done.
  - apply Hf in Hx. done.
  - apply Hf in HP. congruence.
Qed.

Lemma accepted_batting (rows : list RawStatRow) :
  List.filter (λ row, negb (skipBatter row)) rows
  = filter (λ row, ¬ excludedBatting row) rows.
Proof.
  apply filter_bool_Prop. intros row.
  rewrite negb_true_iff, <- not_true_iff_false. by rewrite skipBatter_excluded.
Qed.

Lemma accepted_pitching (rows : list RawStatRow) :
  List.filter (λ row, negb (skipPitcher row)) rows
  = filter (λ row, ¬ excludedPitching row) rows.
Proof.
  apply filter_bool_Prop. intros row.
  rewrite negb_true_iff, <- not_true_iff_false.
  by rewrite skipPitcher_excluded.
Qed.

(** The batting loop pushes one record per row that passes the guard, in the
    order of the rows, each a fresh object. *)
Lemma batter_loop (rows : list RawStatRow) (acc : list (obj Batter.t)) :
  foldl batterStep acc rows
  = acc ++ imap (λ i row, Obj (length acc + i) (mkBatter row))
             (List.filter (λ row, negb (skipBatter row)) rows).
Proof.
  revert acc. induction rows as [|row rows IH]; intros acc.
  { by rewrite app_nil_r. }
  cbn [foldl List.filter]. unfold batterStep at 2.
  destruct (skipBatter row); cbn [negb]; rewrite IH; [done|].
  unfold push. rewrite <- app_assoc. f_equal. cbn [imap app]. f_equal.
  { f_equal. lia. }
  apply imap_ext. intros i x _. cbn. f_equal. rewrite length_app. cbn. lia.
Qed.

Lemma obj_pitcher_ext (k k' : nat) (r1 r1' r2 r2' : num) (row : RawStatRow) :
  k = k' → r1 = r1' → r2 = r2' →
  Obj k (mkPitcher r1 r2 row) = Obj k' (mkPitcher r1' r2' row).
Proof. by intros -> -> ->. Qed.

(** The pitching loop does the same and draws two random numbers per
    accepted row. *)
Lemma pitcher_loop (rows : list RawStatRow) (acc : list (obj Pitcher.t))
    (g : RandomSource) :
  let accepted := List.filter (λ row, negb (skipPitcher row)) rows in
  foldl pitcherStep (acc, g) rows
  = (acc ++ imap (λ i row,
                    Obj (length acc + i)
                      (mkPitcher (draws g (cursor g + 2 * i))
                                 (draws g (cursor g + 2 * i + 1)) row))
             accepted,
     {| draws := draws g; cursor := cursor g + 2 * length accepted |})%nat.
Proof.
  revert acc g. induction rows as [|row rows IH]; intros acc g.
  { cbn. rewrite app_nil_r, Nat.add_0_r. by destruct g. }
  cbn [foldl List.filter]. unfold pitcherStep at 2.
  destruct (skipPitcher row); cbn [negb]; [apply IH|].
  unfold random. rewrite IH. cbn [draws cursor length imap].
  unfold push. rewrite <- app_assoc. cbn [app].
  replace (cursor g + 2 * S (length (List.filter
             (λ row0, negb (skipPitcher row0)) rows)))%nat
    with (S (S (cursor g)) + 2 * length (List.filter
             (λ row0, negb (skipPitcher row0)) rows))%nat by lia.
  apply (f_equal2 pair); [|reflexivity]. apply (f_equal (app acc)).
  apply (f_equal2 cons).
  - apply obj_pitcher_ext; [lia|..]; apply (f_equal (draws g)); lia.
  - apply imap_ext. intros i x _. cbn [compose].
    apply obj_pitcher_ext; [rewrite length_app; cbn; lia|..];
      apply (f_equal (draws g)); lia.
Qed.

Lemma processBatters_spec (rows : list RawStatRow) :
  processBatters rows
  = imap (λ i row, Obj i (mkBatter row))
      (filter (λ row, ¬ excludedBatting row) rows).
Proof. unfold processBatters. by rewrite batter_loop, accepted_batting. Qed.

Lemma processPitchers_spec (g : RandomSource) (rows : list RawStatRow) :
  (processPitchers g rows).1
  = imap (λ i row,
            Obj i (mkPitcher (draws g (cursor g + 2 * i))
                             (draws g (cursor g + 2 * i + 1)) row))%nat
      (filter (λ row, ¬ excludedPitching row) rows).
Proof.
  unfold processPitchers. by rewrite pitcher_loop, accepted_pitching.
Qed.

Lemma oid_imap {A B} (f : nat → B → A) (l : list B) (k : nat) :
  oid <$> imap (λ i x, Obj (k + i) (f i x)) l = seq k (length l).
Proof.
  revert f k. induction l as [|x l IH]; intros f k; [done|].
  cbn [imap fmap list_fmap length seq oid]. f_equal; [lia|].
  rewrite <- (IH (f ∘ S) (S k)). f_equal. apply imap_ext.
  intros i y _. cbn. f_equal. lia.
Qed.

Lemma oid_processBatters (rows : list RawStatRow) :
  oid <$> processBatters rows = seq 0 (length (processBatters rows)).
Proof.
  rewrite processBatters_spec, length_imap.
  apply (oid_imap (λ _ row, mkBatter row) _ 0).
Qed.

Lemma oid_processPitchers (g : RandomSource) (rows : list RawStatRow) :
  oid <$> (processPitchers g rows).1
  = seq 0 (length (processPitchers g rows).1).
Proof.
  rewrite processPitchers_spec, length_imap.
  apply (oid_imap (λ i row, mkPitcher _ _ row) _ 0).
Qed.


(** Every record of the pools has a number, not NaN, for its sort key. *)
Lemma processBatters_war (rows : list RawStatRow) :
  Forall (λ p, isNaN (warOf p) = false) (processBatters rows).
Proof.
  apply Forall_forall. intros p. rewrite processBatters_spec.
  intros (i & row & -> & _)%elem_of_lookup_imap.
  unfold warOf. cbn. by destruct (parseFloat _).
Qed.

Lemma processPitchers_ip (g : RandomSource) (rows : list RawStatRow) :
  Forall (λ p, isNaN (ipOf p) = false) (processPitchers g rows).1.
Proof.
  apply Forall_forall. intros p. rewrite processPitchers_spec.
  intros (i & row & -> & _)%elem_of_lookup_imap.
  unfold ipOf. cbn. by destruct (parseFloat _).
Qed.

End NormalizerFacts.

(** C6 — a raw row is left out exactly when its player name is absent, or,
    for a batting row, its batting average is absent or neither its plate
    appearances nor its games are positive, or, for a pitching row, its ERA
    is absent or its innings pitched are not positive; a batting row with
    PA=0 and G=0 is left out whatever its BA; the rows left out are passed
    over and the loops go on: the pools hold one record per remaining row,
    in the order of the rows. *)
Theorem rows_excluded :
  (∀ row : RawStatRow,
     skipBatter row = true ↔
     absent (row !! "Player")
     ∨ absent (row !! "BA")
     ∨ (¬ positiveStat (parseInt (row !! "PA"))
        ∧ ¬ positiveStat (parseInt (row !! "G"))))
  ∧ (∀ row : RawStatRow,
       skipPitcher row = true ↔
       absent (row !! "Player")
       ∨ absent (row !! "ERA")
       ∨ ¬ positiveStat (parseFloat (row !! "IP")))
  ∧ (∀ row : RawStatRow,
       row !! "PA" = Some "0" → row !! "G" = Some "0" →
       skipBatter row = true)
  ∧ (∀ rows : list RawStatRow,
       processBatters rows
       = imap (λ i row, Obj i (mkBatter row))
           (filter (λ row, ¬ excludedBatting row) rows))
  ∧ (∀ (g : RandomSource) (rows : list RawStatRow),
       (processPitchers g rows).1
       = imap (λ i row,
                 Obj i (mkPitcher (draws g (cursor g + 2 * i))
                                  (draws g (cursor g + 2 * i + 1)) row))%nat
           (filter (λ row, ¬ excludedPitching row) rows)).
Proof.
  split; [exact NormalizerFacts.skipBatter_excluded|].
  split; [exact NormalizerFacts.skipPitcher_excluded|].
  split; [|split].
  - intros row HPA HG. unfold skipBatter. rewrite HPA, HG.
    replace (gt (parseInt (Some "0")) (of_Z 0)) with false
      by (vm_compute; reflexivity).
    apply orb_true_r.
  - exact NormalizerFacts.processBatters_spec.
  - exact NormalizerFacts.processPitchers_spec.
Qed.

(** The batter who never played is left out. *)
Lemma rows_excluded_witness : skipBatter idleRow = true.
Proof.
  apply (proj1 (proj2 (proj2 rows_excluded)) idleRow); vm_compute;
    reflexivity.
Defined.

(** * Sorting *)

Module SortFacts.

Section AnyComparator.
Context {A : Type} (comparefn : A → A → num).

Lemma place_perm (x : A) (l : list A) : place comparefn x l ≡ₚ x :: l.
Proof.
  induction l as [|y l IH]; [done|]. cbn [place].
  destruct (follows comparefn x y); [|done].
  rewrite IH. apply Permutation_swap.
Qed.

Lemma sort_perm (l : list A) : sort comparefn l ≡ₚ l.
Proof.
  induction l as [|x l IH]; [done|].
  cbn [sort foldr]. rewrite place_perm. by f_equiv.
Qed.

Lemma sort_length (l : list A) : length (sort comparefn l) = length l.
Proof. by rewrite sort_perm. Qed.

End AnyComparator.

(** Sorting by descending key with the comparator [byKey key]. *)
Section DescendingKey.
Context {A : Type} (key : A → num).

Lemma follows_lt (a b : A) :
  isNaN (key a) = false → isNaN (key b) = false →
  follows (byKey key) a b = lt (key a) (key b).
Proof. apply NumFacts.gt_sub_zero. Qed.

Lemma follows_differ (a b : A) :
  follows (byKey key) a b = true → key a ≠ key b.
Proof.
  unfold follows, byKey. intros Hf Heq. rewrite Heq in Hf.
  by rewrite NumFacts.gt_sub_self in Hf.
Qed.

(** An element only moves past elements of another key. *)
Lemma place_ties (k : num) (x : A) (l : list A) :
  List.filter (λ a, bool_decide (key a = k)) (place (byKey key) x l)
  = List.filter (λ a, bool_decide (key a = k)) (x :: l).
Proof.
  induction l as [|y l IH]; [done|]. cbn [place].
  destruct (follows (byKey key) x y) eqn:Hf; [|done].
  apply follows_differ in Hf.
  cbn [List.filter] in *. rewrite IH.
  destruct (bool_decide_reflect (key x = k)), (bool_decide_reflect (key y = k));
    congruence.
Qed.

Lemma sort_ties (k : num) (l : list A) :
  List.filter (λ a, bool_decide (key a = k)) (sort (byKey key) l)
  = List.filter (λ a, bool_decide (key a = k)) l.
Proof.
  induction l as [|x l IH]; [done|].
  cbn [sort foldr]. rewrite place_ties. cbn [List.filter].
  fold (sort (byKey key) l). by rewrite IH.
Qed.

Lemma place_sorted (x : A) (l : list A) :
  isNaN (key x) = false → Forall (λ a, isNaN (key a) = false) l →
  StronglySorted (notBelow key) l →
  StronglySorted (notBelow key) (place (byKey key) x l).
Proof.
  intros Hx Hl Hs. induction Hs as [|y l Hs IH Hy]; cbn [place].
  { repeat constructor. }
  apply Forall_cons in Hl as [Hny Hl].
  rewrite follows_lt by done. destruct (lt (key x) (key y)) eqn:Hlt.
  - constructor; [auto|]. rewrite place_perm. constructor; [|done].
    unfold notBelow. rewrite NumFacts.le_nlt by done.
    by rewrite (NumFacts.lt_asym _ _ Hlt).
  - assert (Hyx : notBelow key x y).
    { unfold notBelow. rewrite NumFacts.le_nlt by done. by rewrite Hlt. }
    constructor; [by constructor|]. constructor; [done|].
    eapply Forall_impl; [exact Hy|]. unfold notBelow in *.
    eauto using NumFacts.le_trans.
Qed.

Lemma sort_sorted (l : list A) :
  Forall (λ a, isNaN (key a) = false) l →
  StronglySorted (notBelow key) (sort (byKey key) l).
Proof.
  induction 1 as [|x l Hx Hl IH]; [constructor|].
  cbn [sort foldr]. apply place_sorted; [done| |done].
  fold (sort (byKey key) l). by rewrite sort_perm.
Qed.

Lemma sort_stable (l : list A) :
  Forall (λ a, isNaN (key a) = false) l →
  StableDescending key l (sort (byKey key) l).
Proof.
  split; [apply sort_perm|by apply sort_sorted|].
  intros k. apply sort_ties.
Qed.

End DescendingKey.

Lemma sort_byWar (pool : list (obj Batter.t)) :
  Forall (λ p, isNaN (warOf p) = false) pool →
  StableDescending warOf pool (sort byWar pool).
Proof. apply (sort_stable warOf). Qed.

Lemma sort_byIp (pool : list (obj Pitcher.t)) :
  Forall (λ p, isNaN (ipOf p) = false) pool →
  StableDescending ipOf pool (sort byIp pool).
Proof. apply (sort_stable ipOf). Qed.

End SortFacts.

(** * Pitching staff *)

Module ListFacts.

Lemma NoDup_parts {X} (a b c d : list X) (x : X) :
  NoDup ((a ++ b) ++ (c ++ d)) → x ∈ b ∨ x ∈ d → x ∉ a ++ c.
Proof.
  rewrite !NoDup_app. intros ((_ & Hab & _) & Hcd & (_ & Hc & _)) Hx.
  intros [Ha|Hcx]%elem_of_app.
  - destruct Hx as [Hb|Hd]; [by eapply Hab|].
    eapply Hcd; [apply elem_of_app; by left|]. apply elem_of_app. by right.
  - destruct Hx as [Hb|Hd]; [|by eapply Hc].
    eapply Hcd; [apply elem_of_app; by right|]. apply elem_of_app. by left.
Qed.

End ListFacts.

Module PitcherFacts.

Lemma isStarter_rule (p : obj Pitcher.t) : isStarter p = true ↔ starterRule p.
Proof.
  unfold isStarter, starterRule. cbv zeta.
  by rewrite orb_true_iff, andb_true_iff.
Qed.

Lemma starters_filter (pool : list (obj Pitcher.t)) :
  List.filter isStarter pool = filter starterRule pool.
Proof. apply NormalizerFacts.filter_bool_Prop, isStarter_rule. Qed.

Lemma relievers_filter (pool : list (obj Pitcher.t)) :
  List.filter (λ p, negb (isStarter p)) pool
  = filter (λ p, ¬ starterRule p) pool.
Proof.
  apply NormalizerFacts.filter_bool_Prop. intros p.
  by rewrite negb_true_iff, <- not_true_iff_false, isStarter_rule.
Qed.

End PitcherFacts.

(** C5 — from a pool of accepted pitchers, the starters are the pitchers
    with more than 5 games started, or with games played and more than half
    of them started, ranked by descending innings pitched (equal innings in
    the order of the pool) and cut after the first 5; the relievers are all
    the others, ranked the same way and cut after the first 7; a pitcher
    beyond a cut is in neither group. *)
Theorem pitchers_split (pool : list (obj Pitcher.t)) :
  PitcherPool pool →
  ∃ rankedStarters rankedRelievers : list (obj Pitcher.t),
    StableDescending ipOf (filter starterRule pool) rankedStarters
    ∧ StableDescending ipOf (filter (λ p, ¬ starterRule p) pool)
        rankedRelievers
    ∧ selectStarters pool = take 5 rankedStarters
    ∧ selectRelievers pool = take 7 rankedRelievers
    ∧ ∀ p, p ∈ drop 5 rankedStarters ∨ p ∈ drop 7 rankedRelievers →
           oid p ∉ oid <$> (selectStarters pool ++ selectRelievers pool).
Proof.
  intros [Hnd Hip]. unfold selectStarters, selectRelievers.
  rewrite PitcherFacts.starters_filter, PitcherFacts.relievers_filter.
  set (S := filter starterRule pool).
  set (R := filter (λ p, ¬ starterRule p) pool).
  assert (HS : StableDescending ipOf S (sort byIp S)).
  { apply SortFacts.sort_byIp, Forall_forall.
    intros p [_ Hp]%list_elem_of_filter. by eapply Forall_forall in Hip. }
  assert (HR : StableDescending ipOf R (sort byIp R)).
  { apply SortFacts.sort_byIp, Forall_forall.
    intros p [_ Hp]%list_elem_of_filter. by eapply Forall_forall in Hip. }
  exists (sort byIp S), (sort byIp R).
  split; [exact HS|]. split; [exact HR|]. do 2 (split; [reflexivity|]).
  intros p Hp. rewrite fmap_app.
  apply (ListFacts.NoDup_parts _ (oid <$> drop 5 (sort byIp S)) _
           (oid <$> drop 7 (sort byIp R))).
  - rewrite <- !fmap_app, !take_drop, (sd_perm _ _ _ HS), (sd_perm _ _ _ HR).
    unfold S, R. by rewrite filter_app_complement.
  - destruct Hp; [left|right]; by apply list_elem_of_fmap_2.
Qed.

(** The split on a pool of one reliever and one starter. *)
Lemma pitchers_split_witness :
  ∃ rankedStarters rankedRelievers : list (obj Pitcher.t),
    StableDescending ipOf (filter starterRule samplePitchers) rankedStarters
    ∧ StableDescending ipOf (filter (λ p, ¬ starterRule p) samplePitchers)
        rankedRelievers
    ∧ selectStarters samplePitchers = take 5 rankedStarters
    ∧ selectRelievers samplePitchers = take 7 rankedRelievers
    ∧ ∀ p, p ∈ drop 5 rankedStarters ∨ p ∈ drop 7 rankedRelievers →
           oid p ∉ oid <$> (selectStarters samplePitchers
                             ++ selectRelievers samplePitchers).
Proof.
  apply pitchers_split. split.
  - apply (bool_decide_unpack _). vm_compute. exact I.
  - apply (bool_decide_unpack _). vm_compute. exact I.
Defined.

(** * Filling the lineup *)

Module LineupFacts.

Lemma find_split {A} (f : A → bool) (l : list A) (x : A) :
  List.find f l = Some x →
  ∃ l1 l2, l = l1 ++ x :: l2 ∧ Forall (λ y, f y = false) l1 ∧ f x = true.
Proof.
  induction l as [|y l IH]; [done|]. cbn [List.find].
  destruct (f y) eqn:Hy.
  - intros [= ->]. by exists [], l.
  - intros (l1 & l2 & -> & Hl1 & Hx)%IH.
    exists (y :: l1), l2. by repeat constructor.
Qed.

Lemma find_none {A} (f : A → bool) (l : list A) :
  List.find f l = None → Forall (λ y, f y = false) l.
Proof.
  induction l as [|y l IH]; [constructor|]. cbn [List.find].
  destruct (f y) eqn:Hy; [done|]. by constructor; auto.
Qed.

Lemma filter_head_find {A} (f : A → bool) (l : list A) (x : A) rest :
  List.filter f l = x :: rest → List.find f l = Some x.
Proof.
  induction l as [|y l IH]; [done|]. cbn [List.filter List.find].
  destruct (f y); [by intros [= ->]|auto].
Qed.

Lemma filter_nil_none {A} (f : A → bool) (l : list A) :
  List.filter f l = [] → Forall (λ y, f y = false) l.
Proof.
  induction l as [|y l IH]; [constructor|]. cbn [List.filter].
  destruct (f y) eqn:Hy; [done|]. by constructor; auto.
Qed.

Lemma filter_others {A} (b : obj A) (l : list (obj A)) :
  oid b ∉ oid <$> l → List.filter (λ p, negb (same_obj p b)) l = l.
Proof.
  induction l as [|y l IH]; [done|].
  rewrite fmap_cons, not_elem_of_cons. intros [Hne Hl].
  cbn [List.filter]. unfold same_obj at 1.
  rewrite bool_decide_eq_false_2 by done. cbn [negb]. by rewrite IH.
Qed.

(** [remainingBatters.filter(p => p !== b)] takes exactly the object [b]
    out of a pool of distinct objects. *)
Lemma filter_out {A} (b : obj A) (l1 l2 : list (obj A)) :
  NoDup (oid <$> (l1 ++ b :: l2)) →
  List.filter (λ p, negb (same_obj p b)) (l1 ++ b :: l2) = l1 ++ l2
  ∧ oid b ∉ oid <$> (l1 ++ l2).
Proof.
  rewrite !fmap_app, fmap_cons, NoDup_app, NoDup_cons.
  intros (_ & Hl1 & Hb & _).
  assert (Hb1 : oid b ∉ oid <$> l1).
  { intros Hin. apply (Hl1 _ Hin). by left. }
  split; [|by rewrite not_elem_of_app].
  rewrite List.filter_app. cbn [List.filter]. unfold same_obj at 2.
  rewrite bool_decide_eq_true_2 by done. cbn [negb].
  by rewrite !filter_others.
Qed.

Lemma WarSorted_without (b : obj Batter.t) (l1 l2 : list (obj Batter.t)) :
  WarSorted (l1 ++ b :: l2) → WarSorted (l1 ++ l2).
Proof.
  intros [Hnd Hs]. split.
  - apply (sublist_NoDup _ _ Hnd), fmap_sublist.
    apply sublist_app; [done|]. by apply sublist_cons.
  - apply StronglySorted_app in Hs as (Hx & Hs1 & Hs2).
    apply StronglySorted_app. split_and!; [|done|].
    + intros x1 x2 H1 H2. apply Hx; [done|]. by right.
    + by apply StronglySorted_cons in Hs2 as [_ ?].
Qed.

(** The first batter of a WAR-sorted pool that passes a test is the
    highest-WAR batter that passes it. *)
Lemma chosen_first (Q : obj Batter.t → Prop) (f : obj Batter.t → bool)
    (b : obj Batter.t) (l1 l2 : list (obj Batter.t)) :
  (∀ p, f p = true ↔ Q p) →
  WarSorted (l1 ++ b :: l2) →
  Forall (λ p, f p = false) l1 → f b = true →
  Chosen Q (l1 ++ b :: l2) b (l1 ++ l2).
Proof.
  intros Hf [Hnd Hs] Hl1 Hb. split.
  - by apply Hf.
  - intros b' [Hin|Hin]%elem_of_app HQ.
    + rewrite Forall_forall in Hl1. apply Hf in HQ.
      rewrite (Hl1 _ Hin) in HQ. done.
    + apply elem_of_cons in Hin as [->|Hin]; [apply NumFacts.lt_irrefl|].
      apply NumFacts.le_not_lt.
      apply StronglySorted_app_1_r, StronglySorted_cons in Hs as [Hbl _].
      rewrite Forall_forall in Hbl. by apply Hbl.
  - exists l1, l2. split_and!; [done..|].
    eapply Forall_impl; [exact Hl1|]. intros p Hp HQ%Hf. congruence.
  - by apply filter_out.
Qed.

Lemma plays_test (slot : string) (p : obj Batter.t) :
  bool_decide (Batter.position (val p) = slot) = true ↔ plays slot p.
Proof. apply bool_decide_eq_true. Qed.

Lemma flexible_test (p : obj Batter.t) : isUtility p = true ↔ flexible p.
Proof.
  unfold isUtility, flexible.
  rewrite !orb_true_iff, !bool_decide_eq_true, !elem_of_cons, elem_of_nil.
  tauto.
Qed.

Lemma none_pass {A} (Q : A → Prop) (f : A → bool) (l : list A) :
  (∀ p, f p = true ↔ Q p) →
  Forall (λ p, f p = false) l → Forall (λ p, ¬ Q p) l.
Proof.
  intros Hf Hl. eapply Forall_impl; [exact Hl|].
  intros p Hp HQ%Hf. congruence.
Qed.

(** The spread copy [{...p, position: pos}] is the batter moved to [pos],
    and nothing else is. *)
Lemma reassign_movedTo (slot : string) (b : obj Batter.t) :
  movedTo slot b (reassign b slot).
Proof. by split. Qed.

Lemma movedTo_reassign (slot : string) (b e : obj Batter.t) :
  movedTo slot b e → e = reassign b slot.
Proof.
  destruct e as [i [n ps h bt obt t gm w]].
  intros [Hoid Hpos Hn Hh Hbt Ho Ht Hg Hw].
  cbn in *. unfold reassign, Batter.with_position.
  by rewrite Hoid, Hpos, Hn, Hh, Hbt, Ho, Ht, Hg, Hw.
Qed.

(** One turn of the loop takes from the pool what the specification says. *)
Lemma lineupStep_pick (lineup pool : list (obj Batter.t)) (slot : string) :
  WarSorted pool →
  ∃ entry pool',
    lineupStep (lineup, pool) slot = (lineup ++ entry, pool')
    ∧ pick pool slot entry pool' ∧ WarSorted pool'.
Proof.
  intros Hpool. unfold lineupStep, push.
  destruct (List.filter _ pool) as [|first rest] eqn:Hmatch.
  - apply filter_nil_none in Hmatch.
    pose proof (none_pass _ _ _ (plays_test slot) Hmatch) as Hnone.
    destruct (List.find isUtility pool) as [utility|] eqn:Hfind.
    + apply find_split in Hfind as (l1 & l2 & -> & Hl1 & Hu).
      exists [reassign utility slot], (l1 ++ l2). split_and!.
      * f_equal. by apply filter_out, Hpool.
      * apply (pick_flexible _ _ utility);
          [done| |apply reassign_movedTo].
        by apply (chosen_first _ _ _ _ _ flexible_test).
      * by eapply WarSorted_without.
    + apply find_none in Hfind.
      pose proof (none_pass _ _ _ flexible_test Hfind) as Hnoflex.
      destruct pool as [|best others].
      * exists [], []. rewrite app_nil_r. split_and!; [done| |done].
        by apply pick_nobody.
      * exists [reassign best slot], others. split_and!; [done| |].
        -- apply (pick_best _ _ best); [done..| |apply reassign_movedTo].
           by apply (chosen_first (λ _, True) (λ _, true) best []).
        -- by apply (WarSorted_without best []).
  - apply filter_head_find, find_split in Hmatch as (l1 & l2 & -> & Hl1 & Hf).
    exists [first], (l1 ++ l2). split_and!.
    + f_equal. by apply filter_out, Hpool.
    + apply pick_position.
      by apply (chosen_first _ _ _ _ _ (plays_test slot)).
    + by eapply WarSorted_without.
Qed.

Lemma lineup_fill (slots : list string) (lineup pool : list (obj Batter.t)) :
  WarSorted pool →
  fill slots (lineup, pool) (foldl lineupStep (lineup, pool) slots)
  ∧ WarSorted (foldl lineupStep (lineup, pool) slots).2.
Proof.
  revert lineup pool. induction slots as [|slot slots IH]; intros lineup pool H.
  { split; [constructor|done]. }
  destruct (lineupStep_pick lineup pool slot H)
    as (entry & pool' & Hstep & Hpick & Hpool').
  cbn [foldl]. rewrite Hstep. destruct (IH (lineup ++ entry) pool' Hpool').
  split; [|done]. by econstructor.
Qed.

End LineupFacts.

(** C3 — on a WAR-sorted pool the slots are taken in the order C, 1B, 2B,
    3B, SS, LF, CF, RF; a slot takes the highest-WAR batter left whose
    position is the slot (the first one of the pool); failing that the
    highest-WAR batter left whose position is UT, OF or DH, reassigned to the
    slot; failing that the highest-WAR batter left, reassigned to the slot;
    the batter taken leaves the pool before the next slot. A reassigned
    batter is entered with the slot for position and his other fields
    unchanged. On the pool of an outfielder (WAR 5) and two catchers (WAR 3)
    the first catcher takes C, the outfielder goes to 1B and the second
    catcher to 2B. *)
Theorem lineup_selection :
  (∀ pool : list (obj Batter.t),
     WarSorted pool →
     fill ["C"; "1B"; "2B"; "3B"; "SS"; "LF"; "CF"; "RF"] ([], pool)
       (selectLineup pool))
  ∧ selectLineup sampleBatters
    = ([sampleBatter 1 "C" 3; sampleBatter 0 "1B" 5; sampleBatter 2 "2B" 3],
       []).
Proof.
  split.
  - intros pool Hpool. by apply LineupFacts.lineup_fill.
  - vm_compute. reflexivity.
Qed.

(** The selection on the pool of the outfielder and the two catchers. *)
Lemma lineup_selection_witness :
  fill ["C"; "1B"; "2B"; "3B"; "SS"; "LF"; "CF"; "RF"] ([], sampleBatters)
    (selectLineup sampleBatters).
Proof.
  apply (proj1 lineup_selection sampleBatters). split.
  - apply (bool_decide_unpack _). vm_compute. exact I.
  - repeat constructor; vm_compute; reflexivity.
Defined.

(** * The assembled roster *)

Module RosterFacts.

Lemma padLoop_length {A} (turns : nat) (dummy : nat → A) (l : list A) :
  length (padLoop turns dummy l) = (length l + turns)%nat.
Proof.
  revert l. induction turns as [|turns IH]; intros l; cbn [padLoop]; [lia|].
  rewrite IH. unfold push. rewrite length_app. cbn. lia.
Qed.

Lemma padTo_length {A} (target : nat) (dummy : nat → A) (l : list A) :
  length (padTo target dummy l) = (length l `max` target)%nat.
Proof. unfold padTo. rewrite padLoop_length. lia. Qed.

(** What a slot takes: nothing from an empty pool, and otherwise one batter
    of the pool, entered under the position of the slot. *)
Lemma pick_shape (pool : list (obj Batter.t)) (slot : string)
    (entry pool' : list (obj Batter.t)) :
  pick pool slot entry pool' →
  (Batter.position ∘ val) <$> entry = take (length pool) [slot]
  ∧ oid <$> (entry ++ pool') ≡ₚ oid <$> pool
  ∧ length pool' = (length pool - 1)%nat
  ∧ pool' ⊆ pool.
Proof.
  assert (Hchosen : ∀ Q b e,
    oid e = oid b → Batter.position (val e) = slot →
    Chosen Q pool b pool' →
    (Batter.position ∘ val) <$> [e] = take (length pool) [slot]
    ∧ oid <$> ([e] ++ pool') ≡ₚ oid <$> pool
    ∧ length pool' = (length pool - 1)%nat
    ∧ pool' ⊆ pool).
  { intros Q b e Hoid Hpos [_ _ (l1 & l2 & -> & -> & _) _]. split_and!.
    - cbn. rewrite Hpos, length_app. cbn.
      replace (length l1 + S (length l2))%nat
        with (S (length l1 + length l2)) by lia.
      cbn. by rewrite take_nil.
    - cbn [app fmap list_fmap]. rewrite Hoid, !fmap_app, fmap_cons.
      by rewrite Permutation_middle.
    - rewrite !length_app. cbn. lia.
    - intros x. rewrite !elem_of_app, elem_of_cons. tauto. }
  destruct 1 as [b pool' Hc|b e pool' _ Hc Hm|b e pool' _ _ Hc Hm| ->].
  - apply (Hchosen (plays slot) b b); [done|apply Hc|done].
  - apply (Hchosen flexible b e); [apply Hm..|done].
  - apply (Hchosen (λ _, True) b e); [apply Hm..|done].
  - done.
Qed.

(** The lineup after the slots: the positions of the slots that found a
    batter, in their order; every batter in one place only. *)
Lemma fill_shape (slots : list string)
    (st st' : list (obj Batter.t) * list (obj Batter.t)) :
  fill slots st st' →
  (Batter.position ∘ val) <$> st'.1
  = ((Batter.position ∘ val) <$> st.1) ++ take (length st.2) slots
  ∧ oid <$> (st'.1 ++ st'.2) ≡ₚ oid <$> (st.1 ++ st.2)
  ∧ st'.2 ⊆ st.2.
Proof.
  induction 1 as [st|slot slots lineup pool entry pool' st' Hpick _ IH].
  { rewrite take_nil, app_nil_r. done. }
  apply pick_shape in Hpick as (Hpos & Hoid & Hlen & Hsub).
  destruct IH as (IHpos & IHoid & IHsub). cbn [fst snd] in *. split_and!.
  - rewrite IHpos, fmap_app, Hpos, <- app_assoc. f_equal.
    rewrite Hlen. destruct pool as [|b pool].
    + cbn. destruct pool'; [|done]. by rewrite take_0.
    + cbn. by rewrite take_nil, Nat.sub_0_r.
  - rewrite IHoid, <- app_assoc, !fmap_app. f_equiv.
    by rewrite <- fmap_app.
  - set_solver.
Qed.

(** The sorted pool of the accepted batters is a pool as the lineup loop
    expects it. *)
Lemma pool_WarSorted (rows : list RawStatRow) :
  WarSorted (sort byWar (processBatters rows)).
Proof.
  pose proof (SortFacts.sort_byWar _ (NormalizerFacts.processBatters_war rows))
    as [Hperm Hsorted _].
  split; [|done].
  rewrite Hperm, NormalizerFacts.oid_processBatters. apply NoDup_seq.
Qed.

(** The pool of the accepted pitchers is a pool as the split expects it. *)
Lemma pool_PitcherPool (g : RandomSource) (rows : list RawStatRow) :
  PitcherPool (processPitchers g rows).1.
Proof.
  split; [|apply NormalizerFacts.processPitchers_ip].
  rewrite NormalizerFacts.oid_processPitchers. apply NoDup_seq.
Qed.

Lemma pool_length (rows : list RawStatRow) :
  length (sort byWar (processBatters rows)) = length (processBatters rows).
Proof. apply SortFacts.sort_length. Qed.

Lemma selectLineup_shape (rows : list RawStatRow) :
  let pool := sort byWar (processBatters rows) in
  (Batter.position ∘ val) <$> (selectLineup pool).1
  = take (length (processBatters rows)) positions
  ∧ NoDup (oid <$> ((selectLineup pool).1 ++ (selectLineup pool).2))
  ∧ (selectLineup pool).2 ⊆ pool.
Proof.
  intros pool.
  destruct (LineupFacts.lineup_fill positions [] pool (pool_WarSorted rows))
    as [Hfill _].
  apply fill_shape in Hfill as (Hpos & Hoid & Hsub). cbn [fst snd] in *.
  split_and!; [by rewrite <- pool_length| |done].
  unfold selectLineup. rewrite Hoid. apply pool_WarSorted.
Qed.

End RosterFacts.

(** * Roster generation as a whole *)

Module GenerateFacts.

Lemma missing_guard (stats : option (list RawStatRow)) :
  unset stats || noRows stats = true ↔ missing stats.
Proof.
  unfold missing. destruct stats as [[|row rows]|]; cbn; split; try done.
  - by right.
  - by intros [?|?].
  - by left.
Qed.

Lemma guard_missing (st : AppState) :
  unset (battingStats st) || unset (pitchingStats st)
  || noRows (battingStats st) || noRows (pitchingStats st) = true
  ↔ missing (battingStats st) ∨ missing (pitchingStats st).
Proof.
  rewrite <- !missing_guard, !orb_true_iff. tauto.
Qed.

Lemma generateRoster_refused (g : RandomSource) (st : AppState) :
  missing (battingStats st) ∨ missing (pitchingStats st) →
  generateRoster g st
  = {| state := st; source := g; alerts := [alert_missing] |}.
Proof. intros H%guard_missing. unfold generateRoster. by rewrite H. Qed.

Lemma generateRoster_done (g : RandomSource) (st : AppState)
    (b p : list RawStatRow) :
  battingStats st = Some b → pitchingStats st = Some p →
  b ≠ [] → p ≠ [] →
  generateRoster g st
  = {| state := {| battingStats := Some b;
                   pitchingStats := Some p;
                   roster := (assemble g b p).1;
                   isGenerating := false |};
       source := (assemble g b p).2;
       alerts := [] |}.
Proof.
  intros Hb Hp Hbne Hpne. unfold generateRoster. rewrite Hb, Hp.
  by destruct b, p.
Qed.

Lemma assemble_roster (g : RandomSource) (b p : list RawStatRow) :
  let pool := sort byWar (processBatters b) in
  let pitchers := (processPitchers g p).1 in
  (assemble g b p).1
  = {| positionPlayers :=
         (val <$> (selectLineup pool).1)
         ++ padTo 4 dummyBench (val <$> take 4 (selectLineup pool).2);
       startingPitchers :=
         padTo 5 dummyStarter (val <$> selectStarters pitchers);
       reliefPitchers :=
         padTo 7 dummyReliever (val <$> selectRelievers pitchers) |}.
Proof.
  unfold assemble. destruct (processPitchers g p) as [pitchers g'].
  by destruct (selectLineup _).
Qed.

Lemma assemble_lengths (g : RandomSource) (b p : list RawStatRow) :
  let r := (assemble g b p).1 in
  length (startingPitchers r) = 5%nat
  ∧ length (reliefPitchers r) = 7%nat
  ∧ length (positionPlayers r) = (length (processBatters b) `min` 8 + 4)%nat.
Proof.
  rewrite assemble_roster.
  cbn [startingPitchers reliefPitchers positionPlayers].
  rewrite length_app, !RosterFacts.padTo_length, !length_fmap.
  unfold selectStarters, selectRelievers. rewrite !length_take.
  destruct (RosterFacts.selectLineup_shape b) as (Hpos & _).
  apply (f_equal length) in Hpos. rewrite length_fmap, length_take in Hpos.
  rewrite Hpos. cbn [positions length]. lia.
Qed.

End GenerateFacts.

(** C1 — a run on two non-empty row sets gives 5 starting pitchers and 7
    relief pitchers whatever the rows are, placeholders making up the count;
    the position players are the lineup and a bench of 4, and the lineup has
    one entry per accepted batter up to 8: the bench is padded, the lineup is
    not. With the catcher alone the roster has 5 position players, not 12. *)
Theorem roster_group_lengths :
  (∀ (g : RandomSource) (b : RawStatRow) (bs : list RawStatRow)
     (p : RawStatRow) (ps : list RawStatRow) (r0 : Roster) (busy : bool),
     let st := {| battingStats := Some (b :: bs);
                  pitchingStats := Some (p :: ps);
                  roster := r0;
                  isGenerating := busy |} in
     let r := roster (state (generateRoster g st)) in
     length (startingPitchers r) = 5%nat
     ∧ length (reliefPitchers r) = 7%nat
     ∧ length (positionPlayers r)
       = (length (processBatters (b :: bs)) `min` 8 + 4)%nat)
  ∧ length (positionPlayers (roster (state (generateRoster fixedSource
                                              oneCatcher)))) = 5%nat.
Proof.
  split; [|vm_compute; reflexivity].
  intros g b bs p ps r0 busy st r. unfold r.
  rewrite (GenerateFacts.generateRoster_done g st (b :: bs) (p :: ps))
    by done.
  apply GenerateFacts.assemble_lengths.
Qed.

(** C2 — the lineup of the accepted batters carries the positions C, 1B,
    2B, 3B, SS, LF, CF, RF in this order, as far as the batters go: all 8
    from 8 accepted batters on, the first [n] of them for [n] batters; no
    batter is in two places of the lineup and the bench. With the catcher
    alone the first 8 position players carry [C] and four times [UT]. *)
Theorem lineup_positions :
  (∀ rows : list RawStatRow,
     let pool := sort byWar (processBatters rows) in
     (Batter.position ∘ val) <$> (selectLineup pool).1
     = take (length (processBatters rows))
         ["C"; "1B"; "2B"; "3B"; "SS"; "LF"; "CF"; "RF"]
     ∧ NoDup (oid <$> ((selectLineup pool).1
                        ++ take 4 (selectLineup pool).2)))
  ∧ Batter.position
      <$> take 8 (positionPlayers (roster (state (generateRoster fixedSource
                                                    oneCatcher))))
    = ["C"; "UT"; "UT"; "UT"; "UT"].
Proof.
  split; [|vm_compute; reflexivity].
  intros rows pool.
  destruct (RosterFacts.selectLineup_shape rows) as (Hpos & Hnd & _).
  split; [exact Hpos|].
  apply (sublist_NoDup _ _ Hnd), fmap_sublist, sublist_app; [done|].
  apply sublist_take.
Qed.

(** C7 — when a stat source is absent or empty, [generateRoster] shows its
    message and returns, and the component is as it was, the roster
    included; on two non-empty row sets it shows nothing and puts the
    assembled roster in place. *)
Theorem generateRoster_guard :
  (∀ (g : RandomSource) (st : AppState),
     missing (battingStats st) ∨ missing (pitchingStats st) →
     generateRoster g st
     = {| state := st; source := g; alerts := [alert_missing] |})
  ∧ (∀ (g : RandomSource) (st : AppState),
       ¬ missing (battingStats st) → ¬ missing (pitchingStats st) →
       ∃ b p : list RawStatRow,
         battingStats st = Some b ∧ pitchingStats st = Some p
         ∧ alerts (generateRoster g st) = []
         ∧ state (generateRoster g st)
           = {| battingStats := Some b;
                pitchingStats := Some p;
                roster := (assemble g b p).1;
                isGenerating := false |}).
Proof.
  split; [exact GenerateFacts.generateRoster_refused|].
  intros g st Hb Hp. unfold missing in Hb, Hp.
  destruct (battingStats st) as [b|] eqn:Eb; [|tauto].
  destruct (pitchingStats st) as [p|] eqn:Ep; [|tauto].
  exists b, p.
  rewrite (GenerateFacts.generateRoster_done g st b p) by naive_solver.
  done.
Qed.

(** Before any upload the run is refused and changes nothing. *)
Lemma generateRoster_guard_witness :
  generateRoster fixedSource nothingLoaded
  = {| state := nothingLoaded; source := fixedSource;
       alerts := [alert_missing] |}.
Proof.
  apply (proj1 generateRoster_guard fixedSource nothingLoaded).
  left. left. reflexivity.
Defined.

(** C9 — with the random source fixed, a run is a function of the two row
    sets: a second run on the state the first one left gives the same
    outcome, and two runs on the same row sets give the same roster whatever
    roster was there before. *)
Theorem generateRoster_deterministic :
  (∀ (g : RandomSource) (st : AppState),
     generateRoster g (state (generateRoster g st)) = generateRoster g st)
  ∧ (∀ (g : RandomSource) (st st' : AppState),
       battingStats st = battingStats st' →
       pitchingStats st = pitchingStats st' →
       alerts (generateRoster g st) = [] →
       roster (state (generateRoster g st))
       = roster (state (generateRoster g st'))).
Proof.
  split.
  - intros g st. unfold generateRoster at 2 3.
    destruct (_ || _) eqn:Hguard.
    + cbn [state]. unfold generateRoster. by rewrite Hguard.
    + cbn [state]. unfold generateRoster at 1.
      cbn [battingStats pitchingStats]. by rewrite Hguard.
  - intros g st st' Hb Hp. unfold generateRoster. rewrite <- Hb, <- Hp.
    by destruct (_ || _).
Qed.

(** Two runs on the catcher and the starter, from different rosters. *)
Lemma generateRoster_deterministic_witness :
  roster (state (generateRoster fixedSource oneCatcher))
  = roster (state (generateRoster fixedSource
                     {| battingStats := Some [catcherRow];
                        pitchingStats := Some [aceRow];
                        roster := {| positionPlayers := [];
                                     startingPitchers := [dummyStarter 1];
                                     reliefPitchers := [] |};
                        isGenerating := true |})).
Proof.
  apply (proj2 generateRoster_deterministic fixedSource oneCatcher);
    reflexivity.
Defined.



(** * Further properties of the component *)

(** ** Rounding *)

Module RoundingFacts.

#[local] Transparent of_Z dec rnd rnd_pos one huge.

Lemma one_pos : 0 < one.
Proof. unfold one. apply Z.pow_pos_nonneg; lia. Qed.

(** A quotient that is at most a whole number rounds to at most that
    number, and one below the half before it rounds below it. *)
Lemma rhe_le (n d t : Z) : 0 < d → n ≤ t * d → rhe n d ≤ t.
Proof.
  intros Hd Hn. unfold rhe.
  pose proof (Z.div_mod n d ltac:(lia)) as Hdiv.
  pose proof (Z.mod_pos_bound n d Hd) as Hmod.
  assert (n / d ≤ t) by (apply Z.div_le_upper_bound; lia).
  destruct (Z.compare_spec (2 * (n mod d)) d);
    [destruct (Z.even (n / d))|..]; nia.
Qed.

Lemma rhe_below_half (n d t : Z) :
  0 < d → 2 * n < (2 * t - 1) * d → rhe n d ≤ t - 1.
Proof.
  intros Hd Hn. unfold rhe.
  pose proof (Z.div_mod n d ltac:(lia)) as Hdiv.
  pose proof (Z.mod_pos_bound n d Hd) as Hmod.
  destruct (Z.compare_spec (2 * (n mod d)) d);
    [destruct (Z.even (n / d))|..]; nia.
Qed.

Lemma rhe_nonneg (n d : Z) : 0 ≤ n → 0 < d → 0 ≤ rhe n d.
Proof.
  intros Hn Hd. pose proof (NumFacts.rhe_lower n d).
  pose proof (Z.div_pos n d Hn Hd). lia.
Qed.

Lemma rhe_exact (q d : Z) : 0 < d → rhe (q * d) d = q.
Proof.
  intros Hd. unfold rhe. rewrite Z.div_mul, Z.mod_mul by lia.
  destruct (Z.compare_spec (2 * 0) d); lia.
Qed.

(** The exponent of the spacing at a quotient below [2^(e+53)] is at most
    [e]. *)
Lemma spacing_le (q e : Z) :
  0 ≤ e → q < 2 ^ (e + 53) → Z.max 0 (Z.log2 q - 52) ≤ e.
Proof.
  intros He Hq. destruct (Z.le_gt_cases q 0) as [Hq0|Hq0].
  { rewrite Z.log2_nonpos by done. lia. }
  assert (Z.log2 q < e + 53) by (apply Z.log2_lt_pow2; lia). lia.
Qed.

(** Rounding does not go past a binary64 value [c * 2^e] that bounds the
    quotient. *)
Lemma rnd_pos_le (n d c e : Z) :
  0 ≤ n → 0 < d → 0 ≤ e → 0 < c < 2 ^ 53 → c * 2 ^ e < huge →
  n ≤ c * 2 ^ e * d →
  ∃ m, rnd_pos n d = Fin m ∧ 0 ≤ m ≤ c * 2 ^ e.
Proof.
  intros Hn Hd He Hc Hhuge Hle. unfold rnd_pos.
  set (k := Z.max 0 (Z.log2 (n / d) - 52)).
  assert (Hq : n / d ≤ c * 2 ^ e) by (apply Z.div_le_upper_bound; lia).
  assert (H2e : 0 < 2 ^ e) by (apply Z.pow_pos_nonneg; lia).
  assert (Hk : 0 ≤ k ≤ e).
  { split; [lia|]. apply spacing_le; [done|].
    rewrite Z.pow_add_r by lia. nia. }
  assert (H2k : 0 < 2 ^ k) by (apply Z.pow_pos_nonneg; lia).
  assert (Hsplit : 2 ^ e = 2 ^ (e - k) * 2 ^ k).
  { rewrite <- Z.pow_add_r by lia. f_equal. lia. }
  assert (Hup : rhe n (d * 2 ^ k) ≤ c * 2 ^ (e - k)).
  { apply rhe_le; [lia|]. rewrite Hsplit in Hle. lia. }
  assert (Hlo : 0 ≤ rhe n (d * 2 ^ k)) by (apply rhe_nonneg; lia).
  assert (Hm : 0 ≤ rhe n (d * 2 ^ k) * 2 ^ k ≤ c * 2 ^ e).
  { rewrite Hsplit. nia. }
  rewrite (proj2 (Z.leb_gt _ _)) by lia. eauto.
Qed.

(** The Number value of a whole number below 2^53 is the whole number. *)
Lemma of_Z_whole (z : Z) : 0 ≤ z < 2 ^ 53 → of_Z z = Fin (z * one).
Proof.
  intros Hz. unfold of_Z, rnd. pose proof one_pos as Hone.
  rewrite (proj2 (Z.ltb_ge _ _)) by lia.
  destruct (decide (z = 0)) as [->|Hz0]; [reflexivity|].
  unfold rnd_pos. rewrite Z.div_1_r, Z.mul_1_l.
  set (k := Z.max 0 (Z.log2 (z * one) - 52)).
  assert (Hlog : Z.log2 (z * one) = Z.log2 z + 1074).
  { unfold one. rewrite Z.log2_mul_pow2 by lia. lia. }
  assert (Hlz : 0 ≤ Z.log2 z < 53).
  { split; [apply Z.log2_nonneg|]. apply Z.log2_lt_pow2; lia. }
  assert (Hk : 0 ≤ k ≤ 1074) by lia.
  assert (Hsplit : one = 2 ^ (1074 - k) * 2 ^ k).
  { unfold one. rewrite <- Z.pow_add_r by lia. f_equal. lia. }
  assert (H2k : 0 < 2 ^ k) by (apply Z.pow_pos_nonneg; lia).
  assert (Heq : z * one = z * 2 ^ (1074 - k) * 2 ^ k).
  { rewrite Hsplit at 1. ring. }
  rewrite Heq, rhe_exact by done. rewrite <- Heq.
  assert (z * one < huge).
  { unfold huge, one. change (2 ^ 2098) with (2 ^ 1024 * 2 ^ 1074).
    apply Z.mul_lt_mono_pos_r; [apply Z.pow_pos_nonneg; lia|].
    assert (2 ^ 53 < 2 ^ 1024) by (apply Z.pow_lt_mono_r; lia). lia. }
  by rewrite (proj2 (Z.leb_gt _ _)) by lia.
Qed.

Lemma of_Z_plus (i j : Z) : add (Fin (i * one)) (Fin (j * one)) = of_Z (i + j).
Proof.
  unfold of_Z. cbn [add]. f_equal. ring.
Qed.

Lemma mul_Fin (a b : Z) : mul (Fin a) (Fin b) = rnd (a * b) one.
Proof. destruct a, b; reflexivity. Qed.

Lemma rnd_nonneg (n d : Z) : 0 ≤ n → rnd n d = rnd_pos n d.
Proof. intros Hn. unfold rnd. by rewrite (proj2 (Z.ltb_ge _ _)) by lia. Qed.

(** A batting average from 0 to 1, times 100 and rounded, is a whole
    number from 0 to 100. *)
Lemma round_mul_100 (a : Z) :
  0 ≤ a ≤ one →
  ∃ j, 0 ≤ j ≤ 100 ∧ round (mul (Fin a) (of_Z 100)) = of_Z j.
Proof.
  intros Ha. pose proof one_pos as Hone.
  rewrite (of_Z_whole 100) by (vm_compute; split; congruence).
  rewrite mul_Fin.
  rewrite rnd_nonneg by nia.
  assert (Hc : 100 * one = 25 * 2 ^ 1076).
  { unfold one. change (2 ^ 1076) with (2 ^ 2 * 2 ^ 1074). lia. }
  destruct (rnd_pos_le (a * (100 * one)) one 25 1076) as (m & -> & Hm).
  - nia.
  - done.
  - lia.
  - vm_compute. split; congruence.
  - vm_compute. reflexivity.
  - rewrite <- Hc. nia.
  - rewrite <- Hc in Hm. cbn [round].
    exists ((2 * m + one) / (2 * one)).
    assert (0 ≤ (2 * m + one) / (2 * one) ≤ 100).
    { split; [apply Z.div_pos; lia|].
      apply Z.lt_succ_r, Z.div_lt_upper_bound; lia. }
    split; [done|]. rewrite of_Z_whole; [reflexivity|].
    split; [lia|]. assert (100 < 2 ^ 53) by (vm_compute; reflexivity). lia.
Qed.

(** A random number from [0, 1), times 10 and floored, is a whole number
    from 0 to 9: the product rounds below 10. *)
Lemma floor_mul_10 (r : num) :
  unitDraw r = true →
  ∃ j, 0 ≤ j ≤ 9 ∧ floor (mul r (of_Z 10)) = Fin (j * one).
Proof.
  destruct r as [| | |a]; try done. cbn [unitDraw].
  intros [Ha0%Z.leb_le Ha1%Z.leb_le]%andb_true_iff.
  pose proof one_pos as Hone.
  rewrite (of_Z_whole 10) by (vm_compute; split; congruence).
  rewrite mul_Fin.
  rewrite rnd_nonneg by nia.
  replace (a * (10 * one)) with (a * 10 * one) by ring.
  unfold rnd_pos. rewrite Z.div_mul by lia.
  set (k := Z.max 0 (Z.log2 (a * 10) - 52)).
  assert (H1021 : 0 < 2 ^ 1021) by (apply Z.pow_pos_nonneg; lia).
  assert (Hone8 : 2 ^ 1078 = 16 * one).
  { unfold one. change (2 ^ 1078) with (2 ^ 4 * 2 ^ 1074). lia. }
  assert (Hone21 : one = 2 ^ 53 * 2 ^ 1021).
  { unfold one. rewrite <- Z.pow_add_r by lia. reflexivity. }
  assert (Hk : 0 ≤ k ≤ 1025).
  { split; [lia|]. apply spacing_le; [lia|].
    change (1025 + 53) with 1078. lia. }
  assert (H2k : 0 < 2 ^ k) by (apply Z.pow_pos_nonneg; lia).
  assert (H2k' : 2 ^ k ≤ 16 * 2 ^ 1021).
  { change 16 with (2 ^ 4). rewrite <- Z.pow_add_r by lia.
    apply Z.pow_le_mono_r; lia. }
  assert (Hsplit : one = 2 ^ (1074 - k) * 2 ^ k).
  { unfold one. rewrite <- Z.pow_add_r by lia. f_equal. lia. }
  assert (Hpk : 0 < 2 ^ (1074 - k)) by (apply Z.pow_pos_nonneg; lia).
  assert (Hup : rhe (a * 10 * one) (one * 2 ^ k) ≤ 10 * 2 ^ (1074 - k) - 1).
  { apply rhe_below_half; [lia|].
    replace ((2 * (10 * 2 ^ (1074 - k)) - 1) * (one * 2 ^ k))
      with ((20 * one - 2 ^ k) * one) by (rewrite Hsplit at 1; ring).
    apply Z.lt_le_trans with (20 * a * one + 1 * one); [lia|].
    rewrite <- Z.mul_add_distr_r. apply Z.mul_le_mono_nonneg_r; lia. }
  assert (Hlo : 0 ≤ rhe (a * 10 * one) (one * 2 ^ k))
    by (apply rhe_nonneg; nia).
  set (q := rhe (a * 10 * one) (one * 2 ^ k)) in *.
  assert (Hm : 0 ≤ q * 2 ^ k < 10 * one).
  { split; [nia|]. apply Z.le_lt_trans with ((10 * 2 ^ (1074 - k) - 1) * 2 ^ k).
    - apply Z.mul_le_mono_nonneg_r; lia.
    - rewrite Z.mul_sub_distr_r, <- Z.mul_assoc, <- Hsplit. lia. }
  assert (Hhuge : 10 * one < huge) by (vm_compute; reflexivity).
  rewrite (proj2 (Z.leb_gt _ _)) by lia. cbn [floor].
  exists (q * 2 ^ k / one). split; [|done].
  split; [apply Z.div_pos; lia|].
  apply Z.lt_succ_r, Z.div_lt_upper_bound; lia.
Qed.

Lemma floor_mul_10_plus (r : num) (c : Z) :
  unitDraw r = true → 0 ≤ c < 2 ^ 52 →
  ∃ j, 0 ≤ j ≤ 9 ∧ add (floor (mul r (of_Z 10))) (of_Z c) = of_Z (j + c).
Proof.
  intros Hr Hc. destruct (floor_mul_10 r Hr) as (j & Hj & ->).
  exists j. split; [done|].
  rewrite (of_Z_whole c); [apply of_Z_plus|].
  assert (2 ^ 52 < 2 ^ 53) by (apply Z.pow_lt_mono_r; lia). lia.
Qed.

Lemma unit_range (x : num) :
  le (Fin 0) x = true → le x (of_Z 1) = true → ∃ a, x = Fin a ∧ 0 ≤ a ≤ one.
Proof.
  rewrite (of_Z_whole 1) by (vm_compute; split; congruence).
  destruct x as [| | |a]; try done. cbn [le].
  rewrite !Z.leb_le. intros. exists a. split; [done|lia].
Qed.

Lemma calcBT_unit (avg : option string) :
  le (Fin 0) (parseFloat avg) = true → le (parseFloat avg) (of_Z 1) = true →
  ∃ j, 0 ≤ j ≤ 100 ∧ calcBT avg = of_Z j.
Proof.
  intros H0 H1. destruct (unit_range _ H0 H1) as (a & Ha & Hrange).
  unfold calcBT. rewrite Ha.
  destruct (round_mul_100 a Hrange) as (j & Hj & ->).
  exists j. split; [done|]. rewrite of_Z_whole; [done|].
  assert (100 < 2 ^ 53) by (vm_compute; reflexivity). lia.
Qed.

End RoundingFacts.

(** ** Rating converters, continued *)

Module ConverterFacts.

Lemma le_lt_trans (x y : num) :
  le x y = true → ∀ z, lt y z = true → lt x z = true.
Proof.
  intros Hle z. revert Hle. destruct x, y, z; try done; cbn [le lt].
  rewrite Z.leb_le, !Z.ltb_lt. lia.
Qed.

Lemma calcBT_not_NaN (avg : option string) : isNaN (calcBT avg) = false.
Proof. unfold calcBT. by destruct (round _). Qed.

End ConverterFacts.

(** X1 — [calcPD] answers one of the eight tiers, and a larger ERA never
    gets a better tier than a smaller one. *)
Theorem calcPD_monotone :
  (∀ era : option string, calcPD era ∈ tiers)
  ∧ (∀ e1 e2 : option string,
       le (parseFloat e1) (parseFloat e2) = true →
       (tierRank (calcPD e1) ≤ tierRank (calcPD e2))%nat).
Proof.
  split.
  - intros era. unfold calcPD.
    repeat match goal with
      | |- context [if ?b then _ else _] => destruct b
      end; apply (bool_decide_unpack _); vm_compute; exact I.
  - intros e1 e2 Hle. unfold calcPD.
    destruct (NumFacts.le_isNaN _ _ Hle) as [-> ->].
    pose proof (ConverterFacts.le_lt_trans _ _ Hle) as Hbelow.
    set (x := parseFloat e1) in *. set (y := parseFloat e2) in *.
    repeat match goal with
      | |- context [if lt y ?t then _ else _] =>
          let Hy := fresh "Hy" in
          destruct (lt y t) eqn:Hy;
            [let Hx := fresh "Hx" in
             destruct (lt x t) eqn:Hx; [|apply Hbelow in Hy; congruence]|]
      end;
    repeat match goal with
      | |- context [if ?b then _ else _] => destruct b
      end; vm_compute; lia.
Qed.

(** A 1.99 and a 2.00. *)
Lemma calcPD_monotone_witness :
  (tierRank (calcPD (Some "1.99")) ≤ tierRank (calcPD (Some "2.00")))%nat.
Proof.
  apply (proj2 calcPD_monotone (Some "1.99") (Some "2.00")).
  vm_compute. reflexivity.
Defined.

(** X2 — [calcBT] never answers NaN, [calcOBT] is the same conversion, and
    an average from 0 to 1 gives a whole number from 0 to 100. *)
Theorem calcBT_range :
  (∀ avg : option string, isNaN (calcBT avg) = false)
  ∧ (∀ obp : option string, calcOBT obp = calcBT obp)
  ∧ (∀ avg : option string,
       le (Fin 0) (parseFloat avg) = true →
       le (parseFloat avg) (of_Z 1) = true →
       ∃ j : Z, 0 ≤ j ≤ 100 ∧ calcBT avg = of_Z j).
Proof.
  split; [exact ConverterFacts.calcBT_not_NaN|].
  split; [reflexivity|exact RoundingFacts.calcBT_unit].
Qed.

(** The average .280. *)
Lemma calcBT_range_witness :
  ∃ j : Z, 0 ≤ j ≤ 100 ∧ calcBT (Some ".280") = of_Z j.
Proof.
  apply (proj2 (proj2 calcBT_range) (Some ".280")); vm_compute; reflexivity.
Defined.

(** ** Names and positions, continued *)

Module NameFacts.

Lemma rev_app_app (s t u : string) :
  String.rev_app (s +:+ t) u = String.rev_app t (String.rev_app s u).
Proof.
  revert u. induction s as [|c s IH]; intros u; [done|].
  cbn. apply IH.
Qed.

Lemma rev_snoc (s : string) (c : ascii) :
  String.rev (s +:+ String c "") = String c (String.rev s).
Proof. unfold String.rev. by rewrite rev_app_app. Qed.

(** A string is empty or ends with a code unit. *)
Lemma snoc_cases (s : string) : s = "" ∨ ∃ s' c, s = s' +:+ String c "".
Proof.
  induction s as [|b s IH]; [by left|right].
  destruct IH as [->|(s' & c & ->)].
  - by exists "", b.
  - by exists (String b s'), c.
Qed.

Lemma endsWith_snoc (s : string) (c d : ascii) :
  endsWith (s +:+ String c "") (String d "") = bool_decide (d = c).
Proof.
  unfold endsWith. rewrite rev_snoc. cbn.
  destruct (Ascii.ascii_dec d c) as [->|Hne].
  - rewrite bool_decide_eq_true_2 by done. by destruct (String.rev s).
  - by rewrite bool_decide_eq_false_2.
Qed.

Lemma replace_snoc (s : string) (c : ascii) :
  replace_trailing_mark (s +:+ String c "")
  = if bool_decide (c = "*"%char) || bool_decide (c = "#"%char)
    then s else s +:+ String c "".
Proof.
  induction s as [|b s IH]; [reflexivity|].
  destruct s as [|a s].
  - change (replace_trailing_mark (String b (String c ""))
            = if bool_decide (c = "*"%char) || bool_decide (c = "#"%char)
              then String b "" else String b (String c "")).
    cbn [replace_trailing_mark]. by destruct (_ || _).
  - change (String b (replace_trailing_mark (String a s +:+ String c ""))
            = if bool_decide (c = "*"%char) || bool_decide (c = "#"%char)
              then String b (String a s)
              else String b (String a s +:+ String c "")).
    rewrite IH. by destruct (_ || _).
Qed.

End NameFacts.

(** X3 — a player name is its cleaned name followed by the mark of its
    handedness: [*] for L, [#] for S, nothing for R; only the last mark is
    taken off, and a name that is missing or empty is cleaned to the empty
    string and reads as right-handed. *)
Theorem name_round_trip :
  (∀ name : string,
     name = cleanName (Some name) +:+ annotation (getHandedness (Some name)))
  ∧ cleanName None = "" ∧ getHandedness None = "R"
  ∧ (∀ name : option string, getHandedness name ∈ ["L"; "S"; "R"]).
Proof.
  split; [|split; [done|split; [done|]]].
  - intros name. destruct (NameFacts.snoc_cases name) as [->|(s & c & ->)];
      [done|].
    unfold cleanName, getHandedness.
    assert (Htruthy : truthy (Some (s +:+ String c "")) = true)
      by (by destruct s).
    rewrite Htruthy. cbn [negb default from_option id].
    rewrite !NameFacts.endsWith_snoc, NameFacts.replace_snoc.
    destruct (bool_decide_reflect ("*"%char = c)) as [<-|Hstar]; [done|].
    destruct (bool_decide_reflect ("#"%char = c)) as [<-|Hhash]; [done|].
    rewrite !bool_decide_eq_false_2 by done. cbn.
    by rewrite StrFacts.app_empty.
  - intros name. unfold getHandedness.
    repeat match goal with
      | |- context [if ?b then _ else _] => destruct b
      end; apply (bool_decide_unpack _); vm_compute; exact I.
Qed.

(** X4 — [getPosition] answers one of ten codes; the code it answers occurs
    in the position string, unless it is [UT], which also stands for a
    missing string, an empty string and a string without any code; a string
    in which [C] occurs is always resolved to [C]. *)
Theorem getPosition_occurs :
  (∀ posStr : option string, getPosition posStr ∈ positionCodes)
  ∧ (∀ posStr : string,
       getPosition (Some posStr) = "UT"
       ∨ includes posStr (getPosition (Some posStr)) = true)
  ∧ getPosition None = "UT" ∧ getPosition (Some "") = "UT"
  ∧ (∀ posStr : string,
       includes posStr "C" = true → getPosition (Some posStr) = "C").
Proof.
  split; [|split; [|split; [done|split; [done|]]]].
  - intros posStr. pose proof (NormalizerFacts.getPosition_not_CF posStr) as H.
    revert H. unfold getPosition.
    repeat match goal with
      | |- context [if ?b then _ else _] => destruct b
      end; intros H; try done;
      apply (bool_decide_unpack _); vm_compute; exact I.
  - intros posStr. unfold getPosition.
    destruct (truthy (Some posStr)); cbn [negb default from_option id];
      [|by left].
    repeat match goal with
      | |- context [if includes posStr ?c then _ else _] =>
          destruct (includes posStr c) eqn:?; [by right|]
      end.
    by left.
  - intros posStr HC. unfold getPosition.
    assert (truthy (Some posStr) = true) as -> by (by destruct posStr).
    cbn [negb default from_option id]. by rewrite HC.
Qed.

(** A catcher who also plays first base. *)
Lemma getPosition_occurs_witness : getPosition (Some "1B/C") = "C".
Proof.
  apply (proj2 (proj2 (proj2 (proj2 getPosition_occurs))) "1B/C").
  vm_compute. reflexivity.
Defined.

(** ** Trait inferencer, continued *)

Module IncludesFacts.

Lemma prefix_refl (s : string) : String.prefix s s = true.
Proof.
  induction s as [|c s IH]; [done|]. cbn.
  by destruct (Ascii.ascii_dec c c).
Qed.

Lemma prefix_app (t s u : string) :
  String.prefix t s = true → String.prefix t (s +:+ u) = true.
Proof.
  revert s. induction t as [|c t IH]; intros s.
  { intros _. destruct s; [by destruct u|done]. }
  destruct s as [|b s]; [done|].
  change (String b s +:+ u) with (String b (s +:+ u)). cbn.
  destruct (Ascii.ascii_dec c b); [apply IH|done].
Qed.

Lemma includes_refl (s : string) : includes s s = true.
Proof.
  destruct s as [|c s]; [done|]. cbn [includes].
  by rewrite prefix_refl.
Qed.

Lemma includes_app_l (s u t : string) :
  includes s t = true → includes (s +:+ u) t = true.
Proof.
  induction s as [|c s IH].
  - cbn [includes]. rewrite orb_false_r. intros Hp.
    destruct t; [|done]. by destruct u.
  - change (String c s +:+ u) with (String c (s +:+ u)). cbn [includes].
    intros [Hp|Hi]%orb_true_iff; apply orb_true_iff.
    + left. by apply (prefix_app t (String c s) u).
    + right. by apply IH.
Qed.

Lemma includes_app_r (s u t : string) :
  includes u t = true → includes (s +:+ u) t = true.
Proof.
  intros Hu. induction s as [|c s IH]; [done|].
  change (String c s +:+ u) with (String c (s +:+ u)). cbn [includes].
  rewrite IH. apply orb_true_r.
Qed.

(** A joined list contains each of its members. *)
Lemma join_includes (sep x : string) (l : list string) :
  x ∈ l → includes (join sep l) x = true.
Proof.
  induction l as [|y l IH]; [by intros ?%elem_of_nil|].
  intros [->|Hx]%elem_of_cons.
  - destruct l; [apply includes_refl|].
    cbn [join]. apply includes_app_l, includes_refl.
  - destruct l as [|z l]; [by apply elem_of_nil in Hx|].
    change (join sep (y :: z :: l)) with (y +:+ sep +:+ join sep (z :: l)).
    apply includes_app_r, includes_app_r, IH, Hx.
Qed.

End IncludesFacts.

Module TraitEdgeFacts.

#[local] Transparent of_Z dec rnd rnd_pos one huge.

Lemma gt_or0_zero (x : num) : gt (or0 x) (of_Z 0) = gt x (of_Z 0).
Proof. destruct x; reflexivity. Qed.

Lemma rnd_zero (d : Z) : 0 < d → rnd 0 d = Fin 0.
Proof.
  intros Hd. unfold rnd, rnd_pos, rhe. cbn [Z.ltb Z.compare].
  rewrite Z.div_0_l by lia.
  change (Z.max 0 (Z.log2 0 - 52)) with 0. change (2 ^ 0) with 1.
  rewrite Z.mul_1_r, Z.div_0_l, Z.mod_0_l by lia.
  change (2 * 0) with 0. replace (d * 1) with d by lia.
  destruct (Z.compare_spec 0 d); [lia|vm_compute; reflexivity|lia].
Qed.

(** Nothing per nine innings is nothing, whatever the innings. *)
Lemma zero_per_nine (ip : num) :
  (if gt ip (Fin 0) then div (mul (Fin 0) (of_Z 9)) ip else Fin 0) = Fin 0.
Proof.
  replace (mul (Fin 0) (of_Z 9)) with (Fin 0) by (vm_compute; reflexivity).
  destruct ip as [| | |b]; try reflexivity.
  cbn [gt lt]. destruct (Z.ltb_spec 0 b) as [Hb|Hb]; [|reflexivity].
  destruct b as [|b|b]; try lia. cbn [div Z.ltb Z.compare Z.opp Z.mul].
  apply rnd_zero. lia.
Qed.

Lemma perNine_zero (row : RawStatRow) (col : string) :
  intStat row col = Fin 0 → perNine row col = Fin 0.
Proof. intros H. unfold perNine. rewrite H. apply zero_per_nine. Qed.

Lemma zero_thresholds :
  lt (Fin 0) (dec 12 (-2)) = true ∧ ge (Fin 0) (of_Z 8) = false
  ∧ lt (Fin 0) (dec 7 (-1)) = true ∧ lt (Fin 0) (of_Z 2) = true.
Proof. vm_compute. repeat split. Qed.

Lemma strikeoutRate_zero (row : RawStatRow) :
  gt (parseInt (row !! "PA")) (of_Z 0) = false → strikeoutRate row = Fin 0.
Proof.
  intros Hpa. unfold strikeoutRate.
  rewrite TraitFacts.intStat_or0, <- NumFacts.of_Z_0, gt_or0_zero, Hpa.
  reflexivity.
Qed.

End TraitEdgeFacts.

(** X5 — a batter without a positive number of plate appearances is always
    tagged [C+], and a batting row without the columns HR, SLG, 2B, PA, SB
    and Pos gets the traits [P- C+ S-]. *)
Theorem batting_traits_without_counts :
  (∀ row : RawStatRow,
     gt (parseInt (row !! "PA")) (of_Z 0) = false →
     includes (calcBattingTraits row) "C+" = true)
  ∧ (∀ row : RawStatRow,
       row !! "HR" = None → row !! "SLG" = None → row !! "2B" = None →
       row !! "PA" = None → row !! "SB" = None → row !! "Pos" = None →
       calcBattingTraits row = "P- C+ S-").
Proof.
  split.
  - intros row Hpa. rewrite TraitFacts.calcBattingTraits_rules.
    apply IncludesFacts.join_includes, list_elem_of_omap.
    exists (contactRules row). split; [set_solver|].
    unfold contactRules. rewrite (TraitEdgeFacts.strikeoutRate_zero row Hpa).
    destruct TraitEdgeFacts.zero_thresholds as (-> & _).
    by rewrite orb_true_r.
  - intros row Hhr Hslg Hdoubles Hpa Hsb Hpos. unfold calcBattingTraits.
    rewrite Hhr, Hslg, Hdoubles, Hpa, Hsb, Hpos. vm_compute. reflexivity.
Qed.

(** A batter who never came to the plate, and a row without counting
    columns. *)
Lemma batting_traits_without_counts_witness :
  includes (calcBattingTraits idleRow) "C+" = true
  ∧ calcBattingTraits benchRow = "P- C+ S-".
Proof.
  split.
  - apply (proj1 batting_traits_without_counts idleRow).
    vm_compute. reflexivity.
  - apply (proj2 batting_traits_without_counts benchRow);
      vm_compute; reflexivity.
Defined.

(** X6 — a pitcher whose walks read as 0 is always tagged [CN+]; a pitching
    row without the columns SO, HR and BB is never tagged [K+] or [CN-], and
    gets [GB+] exactly for an ERA below 3.5 and [ST+] exactly for more than 170
    innings. *)
Theorem pitching_traits_without_counts :
  (∀ row : RawStatRow,
     or0 (parseInt (row !! "BB")) = Fin 0 →
     includes (calcPitchingTraits row) "CN+" = true)
  ∧ (∀ row : RawStatRow,
       row !! "SO" = None → row !! "HR" = None → row !! "BB" = None →
       calcPitchingTraits row
       = join " "
           ((if lt (or0 (parseFloat (row !! "ERA"))) (dec 35 (-1))
             then ["GB+"] else [])
            ++ ["CN+"]
            ++ (if gt (or0 (parseFloat (row !! "IP"))) (of_Z 170)
                then ["ST+"] else []))).
Proof.
  split.
  - intros row Hbb. rewrite TraitFacts.calcPitchingTraits_rules.
    apply IncludesFacts.join_includes, list_elem_of_omap.
    exists (controlRules row). split; [set_solver|].
    unfold controlRules. rewrite TraitEdgeFacts.perNine_zero
      by (by rewrite TraitFacts.intStat_or0).
    by destruct TraitEdgeFacts.zero_thresholds as (_ & _ & _ & ->).
  - intros row Hso Hhr Hbb. rewrite TraitFacts.calcPitchingTraits_rules.
    unfold traitString, pitcherCategories, strikeoutRules, groundBallRules,
      controlRules, staminaRules.
    rewrite !TraitEdgeFacts.perNine_zero
      by (unfold intStat; by rewrite ?Hso, ?Hhr, ?Hbb).
    destruct TraitEdgeFacts.zero_thresholds as (_ & -> & -> & ->).
    rewrite !TraitFacts.floatStat_or0.
    cbn [omap list_omap firstMatching andb].
    by destruct (lt _ _), (gt _ _).
Qed.

(** A row with a name, an ERA and the innings alone. *)
Lemma pitching_traits_without_counts_witness :
  includes (calcPitchingTraits bareRow) "CN+" = true
  ∧ calcPitchingTraits bareRow
    = join " "
        ((if lt (or0 (parseFloat (bareRow !! "ERA"))) (dec 35 (-1))
          then ["GB+"] else [])
         ++ ["CN+"]
         ++ (if gt (or0 (parseFloat (bareRow !! "IP"))) (of_Z 170)
             then ["ST+"] else [])).
Proof.
  split.
  - apply (proj1 pitching_traits_without_counts bareRow).
    vm_compute. reflexivity.
  - apply (proj2 pitching_traits_without_counts bareRow);
      vm_compute; reflexivity.
Defined.

(** ** Roster generation, continued *)

Module PaddingFacts.

(** The padding loop appends the placeholders numbered from the length of
    the list plus one. *)
Lemma padLoop_spec {A} (turns : nat) (dummy : nat → A) (l : list A) :
  padLoop turns dummy l = l ++ (dummy <$> seq (S (length l)) turns).
Proof.
  revert l. induction turns as [|turns IH]; intros l; cbn [padLoop].
  - by rewrite app_nil_r.
  - rewrite IH. unfold push. rewrite length_app, <- app_assoc.
    cbn [length seq fmap list_fmap app]. by rewrite !Nat.add_1_r.
Qed.

Lemma padTo_spec {A} (target : nat) (dummy : nat → A) (l : list A) :
  padTo target dummy l
  = l ++ (dummy <$> seq (S (length l)) (target - length l)).
Proof. apply padLoop_spec. Qed.

Lemma padTo_elem {A} (target : nat) (dummy : nat → A) (l : list A) (x : A) :
  x ∈ padTo target dummy l → x ∈ l ∨ ∃ n, x = dummy n.
Proof.
  rewrite padTo_spec. intros [Hx|Hx]%elem_of_app; [by left|right].
  apply list_elem_of_fmap in Hx as (n & -> & _). by exists n.
Qed.

End PaddingFacts.

Module PoolFacts.

Lemma selectStarters_pool (pool : list (obj Pitcher.t)) (p : obj Pitcher.t) :
  p ∈ selectStarters pool → p ∈ pool.
Proof.
  unfold selectStarters. intros Hp%subseteq_take.
  rewrite SortFacts.sort_perm in Hp.
  apply list_elem_of_In, filter_In in Hp as [Hp _].
  by apply list_elem_of_In.
Qed.

Lemma selectRelievers_pool (pool : list (obj Pitcher.t)) (p : obj Pitcher.t) :
  p ∈ selectRelievers pool → p ∈ pool.
Proof.
  unfold selectRelievers. intros Hp%subseteq_take.
  rewrite SortFacts.sort_perm in Hp.
  apply list_elem_of_In, filter_In in Hp as [Hp _].
  by apply list_elem_of_In.
Qed.

(** Every record of a pool was made from a row that passed the guard of the
    loop. *)
Lemma batter_origin (rows : list RawStatRow) (p : obj Batter.t) :
  p ∈ processBatters rows →
  ∃ row, row ∈ rows ∧ skipBatter row = false ∧ val p = mkBatter row.
Proof.
  rewrite NormalizerFacts.processBatters_spec.
  intros (i & row & -> & Hrow)%elem_of_lookup_imap.
  apply list_elem_of_lookup_2, list_elem_of_filter in Hrow as [Hin Hrow].
  exists row. split; [done|]. split; [|done].
  destruct (skipBatter row) eqn:Hskip; [|done].
  by apply NormalizerFacts.skipBatter_excluded in Hskip.
Qed.

Lemma pitcher_origin (g : RandomSource) (rows : list RawStatRow)
    (p : obj Pitcher.t) :
  p ∈ (processPitchers g rows).1 →
  ∃ (row : RawStatRow) (i : nat),
    row ∈ rows ∧ skipPitcher row = false
    ∧ (i < length (processPitchers g rows).1)%nat
    ∧ val p = mkPitcher (draws g (cursor g + 2 * i))
                (draws g (cursor g + 2 * i + 1)) row.
Proof.
  rewrite NormalizerFacts.processPitchers_spec, length_imap.
  intros (i & row & -> & Hrow)%elem_of_lookup_imap.
  pose proof (lookup_lt_Some _ _ _ Hrow) as Hi.
  apply list_elem_of_lookup_2, list_elem_of_filter in Hrow as [Hin Hrow].
  exists row, i. split; [done|]. split; [|done].
  destruct (skipPitcher row) eqn:Hskip; [|done].
  by apply NormalizerFacts.skipPitcher_excluded in Hskip.
Qed.

(** The two ratings of a pitcher come out of [Math.floor(Math.random() * 10)]
    plus 10 and plus 15. *)
Lemma mkPitcher_ratings (r1 r2 : num) (row : RawStatRow) :
  unitDraw r1 = true → unitDraw r2 = true →
  wholeBetween 10 19 (Pitcher.bt (mkPitcher r1 r2 row))
  ∧ wholeBetween 15 24 (Pitcher.obt (mkPitcher r1 r2 row)).
Proof.
  intros H1 H2. cbn [mkPitcher Pitcher.bt Pitcher.obt]. split.
  - destruct (RoundingFacts.floor_mul_10_plus r1 10 H1) as (j & Hj & ->);
      [lia|].
    exists (j + 10). split; [lia|done].
  - destruct (RoundingFacts.floor_mul_10_plus r2 15 H2) as (j & Hj & ->);
      [lia|].
    exists (j + 15). split; [lia|done].
Qed.

Lemma assemble_source (g : RandomSource) (b p : list RawStatRow) :
  (assemble g b p).2 = (processPitchers g p).2.
Proof.
  unfold assemble. destruct (processPitchers g p) as [pitchers g'].
  by destruct (selectLineup _).
Qed.

Lemma processPitchers_source (g : RandomSource) (rows : list RawStatRow) :
  (processPitchers g rows).2
  = {| draws := draws g;
       cursor := cursor g + 2 * length (processPitchers g rows).1 |}%nat.
Proof.
  unfold processPitchers. rewrite (NormalizerFacts.pitcher_loop rows [] g).
  cbn [fst snd app]. by rewrite length_imap.
Qed.

(** The pool depends on the random source through the numbers its accepted
    rows draw, and on nothing else. *)
Lemma processPitchers_agree (g g' : RandomSource) (rows : list RawStatRow) :
  (∀ i, (i < 2 * length (processPitchers g rows).1)%nat →
        draws g (cursor g + i) = draws g' (cursor g' + i)) →
  (processPitchers g rows).1 = (processPitchers g' rows).1.
Proof.
  rewrite !NormalizerFacts.processPitchers_spec, length_imap. intros Hdraws.
  apply imap_ext. intros i row Hrow.
  pose proof (lookup_lt_Some _ _ _ Hrow) as Hi.
  apply NormalizerFacts.obj_pitcher_ext; [done|..].
  - apply Hdraws. lia.
  - rewrite <- !Nat.add_assoc. apply Hdraws. lia.
Qed.

End PoolFacts.

Module OriginFacts.

Lemma chosen_member (Q : obj Batter.t → Prop) (pool : list (obj Batter.t))
    (b : obj Batter.t) (pool' : list (obj Batter.t)) :
  Chosen Q pool b pool' → b ∈ pool.
Proof.
  intros [_ _ (l1 & l2 & -> & _) _]. apply elem_of_app. right. left.
Qed.

(** What a slot adds to the lineup is a batter of the pool, as he is or with
    the slot for position. *)
Lemma pick_origin (pool : list (obj Batter.t)) (slot : string)
    (entry pool' : list (obj Batter.t)) (e : obj Batter.t) :
  pick pool slot entry pool' → e ∈ entry →
  ∃ p, p ∈ pool ∧ (e = p ∨ e = reassign p slot).
Proof.
  intros [b ? Hb|b e' ? _ Hb Hm|b e' ? _ _ Hb Hm| _] He;
    [..|by apply elem_of_nil in He];
    apply list_elem_of_singleton in He as ->;
    exists b; (split; [by eapply chosen_member|]);
    [by left|right; by apply LineupFacts.movedTo_reassign..].
Qed.

Lemma fill_origin (slots : list string)
    (st st' : list (obj Batter.t) * list (obj Batter.t)) (e : obj Batter.t) :
  fill slots st st' → e ∈ st'.1 →
  e ∈ st.1
  ∨ ∃ p slot, p ∈ st.2 ∧ slot ∈ slots ∧ (e = p ∨ e = reassign p slot).
Proof.
  induction 1 as [st|slot slots lineup pool entry pool' st' Hpick _ IH];
    intros He; [by left|].
  cbn [fst snd] in *. destruct (IH He) as [Hin|(p & s & Hp & Hs & Hcase)].
  - apply elem_of_app in Hin as [Hin|Hin]; [by left|right].
    destruct (pick_origin _ _ _ _ _ Hpick Hin) as (p & Hp & Hcase).
    exists p, slot. split; [done|]. split; [left|done].
  - right. exists p, s.
    destruct (RosterFacts.pick_shape _ _ _ _ Hpick) as (_ & _ & _ & Hsub).
    split; [by apply Hsub|]. split; [by right|done].
Qed.

(** The entries of the lineup and of what is left, for the pool of a batting
    file. *)
Lemma lineup_origin (rows : list RawStatRow) (e : obj Batter.t) :
  e ∈ (selectLineup (sort byWar (processBatters rows))).1 →
  ∃ row pos,
    row ∈ rows ∧ skipBatter row = false
    ∧ val e = Batter.with_position (mkBatter row) pos
    ∧ (pos = getPosition (row !! "Pos") ∨ pos ∈ positions).
Proof.
  intros He.
  destruct (LineupFacts.lineup_fill positions []
              (sort byWar (processBatters rows))
              (RosterFacts.pool_WarSorted rows)) as [Hfill _].
  destruct (fill_origin _ _ _ e Hfill He)
    as [Hnil|(p & slot & Hp & Hslot & Hcase)];
    [by apply elem_of_nil in Hnil|].
  cbn [snd] in Hp. rewrite SortFacts.sort_perm in Hp.
  destruct (PoolFacts.batter_origin rows p Hp) as (row & Hrow & Hskip & Hval).
  destruct Hcase as [->| ->].
  - exists row, (getPosition (row !! "Pos")).
    rewrite Hval. split; [done|]. split; [done|]. split; [done|by left].
  - exists row, slot. cbn [reassign val].
    rewrite Hval. split; [done|]. split; [done|]. split; [done|by right].
Qed.

Lemma remaining_origin (rows : list RawStatRow) (e : obj Batter.t) :
  e ∈ (selectLineup (sort byWar (processBatters rows))).2 →
  ∃ row, row ∈ rows ∧ skipBatter row = false ∧ val e = mkBatter row.
Proof.
  intros He. destruct (RosterFacts.selectLineup_shape rows) as (_ & _ & Hsub).
  apply Hsub in He. rewrite SortFacts.sort_perm in He.
  by apply PoolFacts.batter_origin.
Qed.

End OriginFacts.

(** X7 — when [Math.random] returns numbers from 0 up to, and not
    including, 1, every pitcher of the roster, placeholders included, has a
    whole number from 10 to 19 for [bt] and from 15 to 24 for [obt]. *)
Theorem pitcher_ratings_range (g : RandomSource) (b p : list RawStatRow) :
  (∀ i : nat, unitDraw (draws g i) = true) →
  Forall (λ x, wholeBetween 10 19 (Pitcher.bt x)
               ∧ wholeBetween 15 24 (Pitcher.obt x))
    (startingPitchers (assemble g b p).1 ++ reliefPitchers (assemble g b p).1).
Proof.
  intros Hdraws. rewrite GenerateFacts.assemble_roster.
  cbn [startingPitchers reliefPitchers].
  assert (Hpool : ∀ q, q ∈ (processPitchers g p).1 →
            wholeBetween 10 19 (Pitcher.bt (val q))
            ∧ wholeBetween 15 24 (Pitcher.obt (val q))).
  { intros q (row & i & _ & _ & _ & ->)%PoolFacts.pitcher_origin.
    by apply PoolFacts.mkPitcher_ratings. }
  apply Forall_app. split; apply Forall_forall; intros x Hx;
    apply PaddingFacts.padTo_elem in Hx as [Hx|[n ->]].
  - apply list_elem_of_fmap in Hx as (q & -> & Hq).
    by apply Hpool, PoolFacts.selectStarters_pool.
  - split; [by exists 15|by exists 20].
  - apply list_elem_of_fmap in Hx as (q & -> & Hq).
    by apply Hpool, PoolFacts.selectRelievers_pool.
  - split; [by exists 12|by exists 18].
Qed.

(** The source that always returns 0.5, on the sample files. *)
Lemma pitcher_ratings_range_witness :
  Forall (λ x, wholeBetween 10 19 (Pitcher.bt x)
               ∧ wholeBetween 15 24 (Pitcher.obt x))
    (startingPitchers (assemble fixedSource [catcherRow] [aceRow]).1
     ++ reliefPitchers (assemble fixedSource [catcherRow] [aceRow]).1).
Proof.
  apply (pitcher_ratings_range fixedSource [catcherRow] [aceRow]).
  intros i. vm_compute. reflexivity.
Defined.

(** X8 — a run of the assembler draws two random numbers for every accepted
    pitching row and none for anything else; two random sources that agree on
    these numbers give the same roster. *)
Theorem random_numbers_drawn (g : RandomSource) (b p : list RawStatRow) :
  (assemble g b p).2
  = {| draws := draws g;
       cursor := cursor g + 2 * length (processPitchers g p).1 |}%nat
  ∧ ∀ g' : RandomSource,
      (∀ i, (i < 2 * length (processPitchers g p).1)%nat →
            draws g (cursor g + i) = draws g' (cursor g' + i)) →
      (assemble g b p).1 = (assemble g' b p).1.
Proof.
  split.
  - rewrite PoolFacts.assemble_source. apply PoolFacts.processPitchers_source.
  - intros g' Hdraws. rewrite !GenerateFacts.assemble_roster.
    by rewrite (PoolFacts.processPitchers_agree g g' p Hdraws).
Qed.

(** One accepted pitcher: the sources need to agree on two numbers. *)
Lemma random_numbers_drawn_witness :
  (assemble fixedSource [catcherRow] [aceRow]).1
  = (assemble halfThenZero [catcherRow] [aceRow]).1.
Proof.
  apply (proj2 (random_numbers_drawn fixedSource [catcherRow] [aceRow])).
  intros i Hi.
  assert (Hlt : (i < 2)%nat) by (vm_compute in Hi; exact Hi).
  destruct i as [|[|i]]; [vm_compute; reflexivity..|lia].
Defined.

(** X9 — the batters the lineup is chosen from are the accepted rows in
    descending order of WAR, those of equal WAR in the order of the file, and
    the lineup loop fills the eight slots from this pool one after the
    other. *)
Theorem batter_pool_order (rows : list RawStatRow) :
  let pool := sort byWar (processBatters rows) in
  StableDescending warOf (processBatters rows) pool
  ∧ NoDup (oid <$> pool)
  ∧ fill positions ([], pool) (selectLineup pool).
Proof.
  intros pool. split; [|split].
  - apply SortFacts.sort_byWar, NormalizerFacts.processBatters_war.
  - apply (RosterFacts.pool_WarSorted rows).
  - apply (LineupFacts.lineup_fill positions [] pool),
      RosterFacts.pool_WarSorted.
Qed.

(** X10 — nothing on a roster is made up except the placeholders: a
    position player is a placeholder or the record of an accepted batting row,
    with its own position or with the lineup slot it was given for position,
    and a pitcher is a placeholder or the record of an accepted pitching
    row. *)
Theorem roster_origin (g : RandomSource) (b p : list RawStatRow) :
  let r := (assemble g b p).1 in
  Forall (λ x, (∃ n, x = dummyBench n)
               ∨ ∃ row pos,
                   row ∈ b ∧ skipBatter row = false
                   ∧ x = Batter.with_position (mkBatter row) pos
                   ∧ (pos = getPosition (row !! "Pos") ∨ pos ∈ positions))
    (positionPlayers r)
  ∧ Forall (λ x, (∃ n, x = dummyStarter n)
                 ∨ ∃ row i,
                     row ∈ p ∧ skipPitcher row = false
                     ∧ x = mkPitcher (draws g (cursor g + 2 * i))
                             (draws g (cursor g + 2 * i + 1)) row)
      (startingPitchers r)
  ∧ Forall (λ x, (∃ n, x = dummyReliever n)
                 ∨ ∃ row i,
                     row ∈ p ∧ skipPitcher row = false
                     ∧ x = mkPitcher (draws g (cursor g + 2 * i))
                             (draws g (cursor g + 2 * i + 1)) row)
      (reliefPitchers r).
Proof.
  intros r. unfold r. rewrite GenerateFacts.assemble_roster.
  cbn [positionPlayers startingPitchers reliefPitchers].
  split; [|split]; apply Forall_forall; intros x Hx.
  - apply elem_of_app in Hx as [Hx|Hx].
    + right. apply list_elem_of_fmap in Hx as (e & -> & He).
      by apply OriginFacts.lineup_origin.
    + apply PaddingFacts.padTo_elem in Hx as [Hx|[n ->]]; [right|left; eauto].
      apply list_elem_of_fmap in Hx as (e & -> & He%subseteq_take).
      destruct (OriginFacts.remaining_origin b e He)
        as (row & Hrow & Hskip & ->).
      exists row, (getPosition (row !! "Pos")). auto.
  - apply PaddingFacts.padTo_elem in Hx as [Hx|[n ->]]; [right|left; eauto].
    apply list_elem_of_fmap in Hx as (e & -> & He).
    apply PoolFacts.selectStarters_pool, PoolFacts.pitcher_origin in He
      as (row & i & Hrow & Hskip & _ & ->).
    eauto.
  - apply PaddingFacts.padTo_elem in Hx as [Hx|[n ->]]; [right|left; eauto].
    apply list_elem_of_fmap in Hx as (e & -> & He).
    apply PoolFacts.selectRelievers_pool, PoolFacts.pitcher_origin in He
      as (row & i & Hrow & Hskip & _ & ->).
    eauto.
Qed.

(** X11 — the lineup leaves all accepted batters but eight; the bench takes
    the first four of them, and no batter who is left out has a higher WAR
    than a batter on the bench. *)
Theorem bench_best_remaining (rows : list RawStatRow) :
  let remainingBatters :=
    (selectLineup (sort byWar (processBatters rows))).2 in
  length remainingBatters = (length (processBatters rows) - 8)%nat
  ∧ Forall (λ p, Forall (λ q, lt (warOf p) (warOf q) = false)
                   (drop 4 remainingBatters))
      (take 4 remainingBatters).
Proof.
  intros remainingBatters.
  destruct (RosterFacts.selectLineup_shape rows) as (Hpos & Hnodup & _).
  assert (fill positions ([], sort byWar (processBatters rows))
            (selectLineup (sort byWar (processBatters rows)))
          ∧ WarSorted remainingBatters) as [Hfill [_ Hsorted]]
    by apply (LineupFacts.lineup_fill positions []), RosterFacts.pool_WarSorted.
  split.
  - destruct (RosterFacts.fill_shape _ _ _ Hfill) as (_ & Hperm & _).
    apply Permutation_length in Hperm. cbn [fst snd app] in Hperm.
    rewrite !length_fmap, !length_app, RosterFacts.pool_length in Hperm.
    apply (f_equal length) in Hpos.
    rewrite length_fmap, length_take in Hpos.
    cbn [fst snd length positions] in *. unfold remainingBatters. lia.
  - apply Forall_forall. intros p Hp. apply Forall_forall. intros q Hq.
    apply NumFacts.le_not_lt. change (notBelow warOf p q).
    apply (StronglySorted_app_1_elem_of _ (take 4 remainingBatters)
             (drop 4 remainingBatters)); [|done..].
    by rewrite take_drop.
Qed.

(** X12 — the placeholders of a group are numbered on from the players the
    group has: a group of [k] players is followed by the placeholders
    [k + 1], ..., up to the size of the group. *)
Theorem placeholder_numbering (g : RandomSource) (b p : list RawStatRow) :
  let r := (assemble g b p).1 in
  let pool := sort byWar (processBatters b) in
  let bench := take 4 (selectLineup pool).2 in
  let starters := selectStarters (processPitchers g p).1 in
  let relievers := selectRelievers (processPitchers g p).1 in
  positionPlayers r
  = (val <$> (selectLineup pool).1) ++ (val <$> bench)
    ++ (dummyBench <$> seq (S (length bench)) (4 - length bench))
  ∧ startingPitchers r
    = (val <$> starters)
      ++ (dummyStarter <$> seq (S (length starters)) (5 - length starters))
  ∧ reliefPitchers r
    = (val <$> relievers)
      ++ (dummyReliever <$> seq (S (length relievers)) (7 - length relievers)).
Proof.
  intros r pool bench starters relievers. unfold r.
  rewrite GenerateFacts.assemble_roster.
  cbn [positionPlayers startingPitchers reliefPitchers].
  rewrite !PaddingFacts.padTo_spec, !length_fmap. done.
Qed.

(** ** The component around [generateRoster] *)

Module ComponentFacts.

(** A run that shows no message had two files with rows. *)
Lemma quiet_run (g : RandomSource) (st : AppState) :
  alerts (generateRoster g st) = [] →
  ∃ b p, battingStats st = Some b ∧ pitchingStats st = Some p
         ∧ b ≠ [] ∧ p ≠ [].
Proof.
  unfold generateRoster.
  destruct (battingStats st) as [[|row b]|], (pitchingStats st) as [[|row' p]|];
    try discriminate.
  intros _. by exists (row :: b), (row' :: p).
Qed.

Lemma rejected_batters (rows : list RawStatRow) :
  Forall (λ row, skipBatter row = true) rows → processBatters rows = [].
Proof.
  intros Hrows. unfold processBatters.
  rewrite (NormalizerFacts.batter_loop rows []).
  replace (List.filter _ rows) with (@nil RawStatRow); [done|].
  induction Hrows as [|row rows Hrow _ IH]; [done|].
  cbn [List.filter]. by rewrite Hrow.
Qed.

Lemma rejected_pitchers (g : RandomSource) (rows : list RawStatRow) :
  Forall (λ row, skipPitcher row = true) rows →
  processPitchers g rows = ([], g).
Proof.
  intros Hrows. unfold processPitchers.
  induction Hrows as [|row rows Hrow _ IH]; [done|].
  cbn [foldl pitcherStep]. by rewrite Hrow.
Qed.

End ComponentFacts.

(** X13 — after a run that shows no message the roster sheet is rendered
    and the print and generate buttons are enabled, whatever the rows of the
    two files are. *)
Theorem sheet_after_generation (g : RandomSource) (st : AppState) :
  alerts (generateRoster g st) = [] →
  let st' := state (generateRoster g st) in
  sheetShown st' = true ∧ printDisabled st' = false
  ∧ generateDisabled st' = false.
Proof.
  intros (b & p & Hb & Hp & Hbne & Hpne)%ComponentFacts.quiet_run.
  rewrite (GenerateFacts.generateRoster_done g st b p) by done.
  cbn [state]. unfold sheetShown, printDisabled, generateDisabled.
  cbn [roster battingStats pitchingStats isGenerating unset orb].
  destruct (GenerateFacts.assemble_lengths g b p) as (_ & _ & ->).
  split; [|split; [|done]].
  - apply bool_decide_eq_true_2. lia.
  - apply bool_decide_eq_false_2. lia.
Qed.

(** A catcher and a starter. *)
Lemma sheet_after_generation_witness :
  let st' := state (generateRoster fixedSource oneCatcher) in
  sheetShown st' = true ∧ printDisabled st' = false
  ∧ generateDisabled st' = false.
Proof.
  apply (sheet_after_generation fixedSource oneCatcher). reflexivity.
Defined.

(** X14 — with the generate button enabled, a run is refused exactly when
    one of the two files was parsed to no rows at all. *)
Theorem refused_with_button_enabled (g : RandomSource) (st : AppState) :
  generateDisabled st = false →
  alerts (generateRoster g st) = [alert_missing]
  ↔ battingStats st = Some [] ∨ pitchingStats st = Some [].
Proof.
  unfold generateDisabled, generateRoster.
  destruct (battingStats st) as [[|row b]|], (pitchingStats st) as [[|row' p]|];
    cbn [unset noRows orb alerts]; try discriminate; intros _;
    split; auto; try discriminate; intros [?|?]; discriminate.
Qed.

(** A batting file with a header line alone. *)
Lemma refused_with_button_enabled_witness :
  alerts (generateRoster fixedSource emptyBatting) = [alert_missing]
  ↔ battingStats emptyBatting = Some [] ∨ pitchingStats emptyBatting = Some [].
Proof.
  apply (refused_with_button_enabled fixedSource emptyBatting). reflexivity.
Defined.

(** X15 — an upload replaces the rows of its own file and leaves every
    other part of the state as it is, the roster on display included; a file
    that is not chosen or fails to parse changes nothing, in any state; the
    two uploads can come in either order; and the run after two uploads with
    rows shows no message and builds the roster from the uploaded rows,
    whatever was loaded or shown before. *)
Theorem uploads_then_generate :
  (∀ (st : AppState) (b : list RawStatRow),
     let st' := handleBattingUpload (Some (Complete b)) st in
     battingStats st' = Some b ∧ pitchingStats st' = pitchingStats st
     ∧ roster st' = roster st ∧ isGenerating st' = isGenerating st)
  ∧ (∀ (st : AppState) (p : list RawStatRow),
       let st' := handlePitchingUpload (Some (Complete p)) st in
       pitchingStats st' = Some p ∧ battingStats st' = battingStats st
       ∧ roster st' = roster st ∧ isGenerating st' = isGenerating st)
  ∧ (∀ st : AppState,
       handleBattingUpload None st = st
       ∧ handleBattingUpload (Some Failed) st = st
       ∧ handlePitchingUpload None st = st
       ∧ handlePitchingUpload (Some Failed) st = st)
  ∧ (∀ (st : AppState) (b p : list RawStatRow),
       handlePitchingUpload (Some (Complete p))
         (handleBattingUpload (Some (Complete b)) st)
       = handleBattingUpload (Some (Complete b))
           (handlePitchingUpload (Some (Complete p)) st))
  ∧ (∀ (g : RandomSource) (st : AppState) (b p : list RawStatRow),
       b ≠ [] → p ≠ [] →
       let loaded :=
         handlePitchingUpload (Some (Complete p))
           (handleBattingUpload (Some (Complete b)) st) in
       alerts (generateRoster g loaded) = []
       ∧ roster (state (generateRoster g loaded)) = (assemble g b p).1).
Proof.
  split_and!; try done.
  intros g st b p Hb Hp loaded.
  by rewrite (GenerateFacts.generateRoster_done g loaded b p).
Qed.

(** The files of the catcher and of the starter, uploaded before anything
    else. *)
Lemma uploads_then_generate_witness :
  roster (state (generateRoster fixedSource
                   (handlePitchingUpload (Some (Complete [aceRow]))
                      (handleBattingUpload (Some (Complete [catcherRow]))
                         nothingLoaded))))
  = (assemble fixedSource [catcherRow] [aceRow]).1.
Proof.
  apply (proj2 (proj2 (proj2 (proj2 (proj2 uploads_then_generate)))
                  fixedSource nothingLoaded [catcherRow] [aceRow]
                  ltac:(discriminate) ltac:(discriminate))).
Defined.

(** X16 — files whose rows are all rejected are not an error: the assembly
    draws no random number, and the roster it builds has no lineup, only the
    four bench placeholders and the twelve pitcher placeholders. *)
Theorem rejected_rows_roster (g : RandomSource) (b p : list RawStatRow) :
  Forall (λ row, skipBatter row = true) b →
  Forall (λ row, skipPitcher row = true) p →
  assemble g b p
  = ({| positionPlayers := dummyBench <$> [1; 2; 3; 4]%nat;
        startingPitchers := dummyStarter <$> [1; 2; 3; 4; 5]%nat;
        reliefPitchers := dummyReliever <$> [1; 2; 3; 4; 5; 6; 7]%nat |}, g).
Proof.
  intros Hb Hp. unfold assemble.
  rewrite (ComponentFacts.rejected_batters b Hb),
    (ComponentFacts.rejected_pitchers g p Hp).
  reflexivity.
Qed.

(** A batter who never played, and the same row read as a pitcher. *)
Lemma rejected_rows_roster_witness :
  assemble fixedSource [idleRow] [idleRow]
  = ({| positionPlayers := dummyBench <$> [1; 2; 3; 4]%nat;
        startingPitchers := dummyStarter <$> [1; 2; 3; 4; 5]%nat;
        reliefPitchers := dummyReliever <$> [1; 2; 3; 4; 5; 6; 7]%nat |},
     fixedSource).
Proof.
  apply (rejected_rows_roster fixedSource [idleRow] [idleRow]);
    repeat constructor; vm_compute; reflexivity.
Defined.

(** X17 — from eight accepted batting rows on, the first eight position
    players of the roster are the lineup, with the eight positions in their
    order, and the position players after the eighth are the four of the
    bench: the two slices that the sheet and the exports show are the two
    groups the assembler built. *)
Theorem full_lineup_slices (g : RandomSource) (b p : list RawStatRow) :
  (8 ≤ length (processBatters b))%nat →
  let r := (assemble g b p).1 in
  let pool := sort byWar (processBatters b) in
  take 8 (positionPlayers r) = val <$> (selectLineup pool).1
  ∧ drop 8 (positionPlayers r)
    = padTo 4 dummyBench (val <$> take 4 (selectLineup pool).2)
  ∧ Batter.position <$> take 8 (positionPlayers r) = positions
  ∧ length (drop 8 (positionPlayers r)) = 4%nat.
Proof.
  intros Hb r pool. unfold r. rewrite GenerateFacts.assemble_roster.
  cbn [positionPlayers]. fold pool.
  destruct (RosterFacts.selectLineup_shape b) as (Hpos & _). fold pool in Hpos.
  rewrite take_ge in Hpos by (cbn [positions length]; lia).
  assert (Hlen : length (val <$> (selectLineup pool).1) = 8%nat).
  { apply (f_equal length) in Hpos. by rewrite !length_fmap in *. }
  rewrite take_app_length', drop_app_length' by done.
  split; [done|]. split; [done|]. split.
  - by rewrite <- list_fmap_compose.
  - rewrite RosterFacts.padTo_length, length_fmap, length_take. lia.
Qed.

(** Nine batters without positions: the eight best make the lineup. *)
Lemma full_lineup_slices_witness :
  let r := (assemble fixedSource squadRows [aceRow]).1 in
  let pool := sort byWar (processBatters squadRows) in
  take 8 (positionPlayers r) = val <$> (selectLineup pool).1
  ∧ drop 8 (positionPlayers r)
    = padTo 4 dummyBench (val <$> take 4 (selectLineup pool).2)
  ∧ Batter.position <$> take 8 (positionPlayers r) = positions
  ∧ length (drop 8 (positionPlayers r)) = 4%nat.
Proof.
  apply (full_lineup_slices fixedSource squadRows [aceRow]).
  vm_compute. lia.
Defined.
